(** * Moving-average crossover backtester: embedding of [backtester.py]

    The pipeline of the program is

      prices -> calculate_moving_averages -> generate_signals
             -> simulate_trades -> calculate_metrics

    Numbers.  The program computes on IEEE doubles.  Here every finite
    quantity is an exact rational ([Q]); rounding and signed zeros are not
    modelled.  The places where the program meets a missing or a
    non-finite number are kept explicit:
    - a NaN cell of a data-frame column is [None] ([rolling(...).mean()]
      during warm-up, [diff()] on the first row);
    - a true division [a / b] by zero, which numpy evaluates to [inf],
      [-inf] or [nan] without raising, yields [PInf], [NInf] or [NaN];
    - a floor division [a // b] by zero does not raise either: numpy
      evaluates it to [inf], [-inf] or [nan], and the program goes on with
      a non-finite share count.  The loop body on numbers that may be
      non-finite is [xstep] (with [xrun] and [xsimulate_trades]).  The
      functions [step], [run], [simulate_trades] and
      [calculate_buy_and_hold] are the same code on finite numbers: where
      the program leaves the finite numbers they stop with the outcome
      [NonFinite], which is not an exception of the program.  On every
      finite run the two agree ([step_finite], [run_finite],
      [simulate_trades_finite]);
    - [df.iloc[-1]] on an empty frame raises: the run ends in [IndexError].

    Share counts of a finite run are integer valued ([Z]): they are [0]
    or the result of a floor division.

    Frames.  A data frame is the list of its rows, in index order; only
    the columns the program reads or writes are kept, and the [Close]
    column of the input holds no NaN.  Window lengths are natural numbers
    (pandas rejects a negative window). *)

From Stdlib Require Import QArith Qround Qminmax ZArith List Bool Lia Lqa.
Import ListNotations.

Local Open Scope Q_scope.

(** ** Numbers that may be non-finite *)

Inductive num : Type :=
| Fin (q : Q)
| PInf
| NInf
| NaN.

(** [a / b] on doubles, as numpy evaluates it. *)
Definition true_div (a b : Q) : num :=
  if Qeq_bool b 0 then
    if Qeq_bool a 0 then NaN
    else if Qle_bool 0 a then PInf else NInf
  else Fin (a / b).

(** [x * 100] for a possibly non-finite [x]. *)
Definition times100 (x : num) : num :=
  match x with
  | Fin q => Fin (q * 100)
  | PInf => PInf
  | NInf => NInf
  | NaN => NaN
  end.

(** [a // b] on doubles, when the result is finite: the floor of the
    quotient.  With a zero divisor numpy returns [inf], [-inf] or [nan]
    ([xfloor_div] below); there is no finite result then. *)
Definition floor_div (a b : Q) : option Z :=
  if Qeq_bool b 0 then None else Some (Qfloor (a / b)).

(** ** Outcome of a run *)

(** [Ok a]: the function returns [a], all numbers finite.  [IndexError]:
    the function raises.  [NonFinite]: a floor division met a zero
    divisor; the program does not raise but goes on with [inf] or [nan],
    outside the finite numbers. *)
Inductive outcome (A : Type) : Type :=
| Ok (a : A)
| IndexError
| NonFinite.

Arguments Ok {A} a.
Arguments IndexError {A}.
Arguments NonFinite {A}.

(** ** Data frames *)

Definition Date := nat.

(** A row of the input frame: the index and the [Close] column. *)
Record Bar : Type := mkBar {
  bar_Date : Date;
  bar_Close : Q
}.

(** A row after [calculate_moving_averages]. *)
Record MARow : Type := mkMARow {
  ma_Date : Date;
  ma_Close : Q;
  ma_SMA_Short : option Q;
  ma_SMA_Long : option Q
}.

(** A row after [generate_signals]. *)
Record SigRow : Type := mkSigRow {
  Date_ : Date;
  Close : Q;
  SMA_Short : option Q;
  SMA_Long : option Q;
  Signal : Z;
  Position : option Z
}.

(** ** calculate_moving_averages *)

Definition Qsum (xs : list Q) : Q := fold_right Qplus 0 xs.

(** [rolling(window=w).mean()] at index [i]: NaN until [w] observations
    are available, then the mean of the last [w] values.  A window of [0]
    never has an observation. *)
Definition rolling_mean_at (w : nat) (xs : list Q) (i : nat) : option Q :=
  if (w =? 0)%nat || (i + 1 <? w)%nat then None
  else Some (Qsum (firstn w (skipn (i + 1 - w) xs)) / inject_Z (Z.of_nat w)).

Definition rolling_mean (w : nat) (xs : list Q) : list (option Q) :=
  map (rolling_mean_at w xs) (seq 0 (length xs)).

Definition calculate_moving_averages
    (df : list Bar) (short_window long_window : nat) : list MARow :=
  let closes := map bar_Close df in
  map (fun '(b, (s, l)) => mkMARow (bar_Date b) (bar_Close b) s l)
      (combine df (combine (rolling_mean short_window closes)
                           (rolling_mean long_window closes))).

(** ** generate_signals *)

(** [df["SMA_Short"] > df["SMA_Long"]]: false as soon as one side is NaN. *)
Definition gt_cell (a b : option Q) : bool :=
  match a, b with
  | Some x, Some y => negb (Qle_bool x y)
  | _, _ => false
  end.

(** [df["SMA_Short"] <= df["SMA_Long"]]: false as soon as one side is NaN. *)
Definition le_cell (a b : option Q) : bool :=
  match a, b with
  | Some x, Some y => Qle_bool x y
  | _, _ => false
  end.

(** The [Signal] column: initialised to 0, then the two masked
    assignments in the order of the source. *)
Definition signal_of (s l : option Q) : Z :=
  let sig0 := 0%Z in
  let sig1 := if gt_cell s l then 1%Z else sig0 in
  if le_cell s l then (-1)%Z else sig1.

(** [Series.diff()]: NaN on the first row, then the difference with the
    previous row. *)
Fixpoint diff_from (prev : Z) (xs : list Z) : list (option Z) :=
  match xs with
  | [] => []
  | x :: rest => Some (x - prev)%Z :: diff_from x rest
  end.

Definition diff (xs : list Z) : list (option Z) :=
  match xs with
  | [] => []
  | x :: rest => None :: diff_from x rest
  end.

Definition generate_signals (df : list MARow) : list SigRow :=
  let signals := map (fun r => signal_of (ma_SMA_Short r) (ma_SMA_Long r)) df in
  map (fun '(r, (sg, p)) =>
         mkSigRow (ma_Date r) (ma_Close r) (ma_SMA_Short r) (ma_SMA_Long r) sg p)
      (combine df (combine signals (diff signals))).

(** ** simulate_trades *)

(** [df.dropna()]: a row survives when none of its cells is NaN. *)
Definition has_no_nan (r : SigRow) : bool :=
  match SMA_Short r, SMA_Long r, Position r with
  | Some _, Some _, Some _ => true
  | _, _, _ => false
  end.

Definition dropna (df : list SigRow) : list SigRow := filter has_no_nan df.

(** An entry of the [trades] list. *)
Inductive trade : Type :=
| BUY (date : Date) (price : Q) (shares : Z)
| SELL (date : Date) (price : Q) (shares : Z) (profit : Q) (profit_pct : num).

(** An entry of the [portfolio_values] list. *)
Record snapshot : Type := mkSnapshot {
  snap_Date : Date;
  Value : Q
}.

(** The local variables of [simulate_trades] that the loop updates. *)
Record sim : Type := mkSim {
  capital : Q;
  shares : Z;
  trades : list trade;
  portfolio_values : list snapshot;
  in_position : bool;
  entry_price : Q;
  entry_date : option Date
}.

Definition init_sim (initial_capital : Q) : sim :=
  mkSim initial_capital 0 [] [] false 0 None.

(** [row["Position"] == k]: false on a NaN cell. *)
Definition position_is (r : SigRow) (k : Z) : bool :=
  match Position r with
  | Some p => (p =? k)%Z
  | None => false
  end.

(** One iteration of the [for date, row in df.iterrows()] loop, on a
    finite state.  A BUY attempt at a zero close leaves the finite
    numbers: [NonFinite]; the iteration itself is [xstep] below. *)
Definition step (s : sim) (row : SigRow) : outcome sim :=
  let date := Date_ row in
  let current_price := Close row in
  let portfolio_value := capital s + inject_Z (shares s) * current_price in
  let pv := portfolio_values s ++ [mkSnapshot date portfolio_value] in
  if position_is row 2 && negb (in_position s) then
    match floor_div (capital s) current_price with
    | None => NonFinite
    | Some n =>
        (* [shares] is assigned before the test [shares > 0] *)
        if (n >? 0)%Z then
          let cost := inject_Z n * current_price in
          Ok (mkSim (capital s - cost) n
                    (trades s ++ [BUY date current_price n])
                    pv true current_price (Some date))
        else
          Ok (mkSim (capital s) n (trades s) pv
                    (in_position s) (entry_price s) (entry_date s))
    end
  else if position_is row (-2) && in_position s then
    let revenue := inject_Z (shares s) * current_price in
    let profit := (current_price - entry_price s) * inject_Z (shares s) in
    let profit_pct :=
      times100 (true_div (current_price - entry_price s) (entry_price s)) in
    Ok (mkSim (capital s + revenue) 0
              (trades s ++ [SELL date current_price (shares s) profit profit_pct])
              pv false 0 None)
  else
    Ok (mkSim (capital s) (shares s) (trades s) pv
              (in_position s) (entry_price s) (entry_date s)).

(** The whole loop. *)
Fixpoint run (s : sim) (rows : list SigRow) : outcome sim :=
  match rows with
  | [] => Ok s
  | row :: rest =>
      match step s row with
      | Ok s' => run s' rest
      | IndexError => IndexError
      | NonFinite => NonFinite
      end
  end.

(** The dictionary returned by [simulate_trades]. *)
Record results : Type := mkResults {
  res_trades : list trade;
  res_portfolio_df : list snapshot;
  res_final_value : Q;
  res_initial_capital : Q;
  res_shares_held : Z;
  res_cash : Q;
  res_in_position : bool;
  res_unrealized_profit : Q;
  res_unrealized_pct : num
}.

(** [df.iloc[-1]]. *)
Definition iloc_last (df : list SigRow) : outcome SigRow :=
  match rev df with
  | [] => IndexError
  | r :: _ => Ok r
  end.

Definition simulate_trades (df : list SigRow) (initial_capital : Q)
  : outcome results :=
  let df := dropna df in
  match run (init_sim initial_capital) df with
  | Ok s =>
      match iloc_last df with
      | Ok last =>
          let final_price := Close last in
          let final_value := capital s + inject_Z (shares s) * final_price in
          let unrealized_profit :=
            if in_position s
            then (final_price - entry_price s) * inject_Z (shares s) else 0 in
          let unrealized_pct :=
            if in_position s
            then times100 (true_div (final_price - entry_price s) (entry_price s))
            else Fin 0 in
          Ok (mkResults (trades s) (portfolio_values s) final_value
                        initial_capital (shares s) (capital s) (in_position s)
                        unrealized_profit unrealized_pct)
      | IndexError => IndexError
      | NonFinite => NonFinite
      end
  | IndexError => IndexError
  | NonFinite => NonFinite
  end.

(** ** The loop on numbers that may be non-finite

    The same code as [step], [run] and [simulate_trades], on doubles that
    may be [inf], [-inf] or [nan] (IEEE 754 without rounding): no operation
    of the loop raises.  The close prices of the frame are finite. *)

Definition xneg (a : num) : num :=
  match a with
  | Fin q => Fin (- q)
  | PInf => NInf
  | NInf => PInf
  | NaN => NaN
  end.

(** [a + b]: [inf + -inf] is [nan]. *)
Definition xadd (a b : num) : num :=
  match a, b with
  | NaN, _ => NaN
  | _, NaN => NaN
  | Fin x, Fin y => Fin (x + y)
  | PInf, NInf => NaN
  | NInf, PInf => NaN
  | PInf, _ => PInf
  | _, PInf => PInf
  | NInf, _ => NInf
  | _, NInf => NInf
  end.

Definition xsub (a b : num) : num := xadd a (xneg b).

(** An infinity ([inf] when [pos], else [-inf]) times a finite number:
    [inf * 0] is [nan]. *)
Definition inf_times (pos : bool) (q : Q) : num :=
  if Qeq_bool q 0 then NaN
  else if Bool.eqb pos (Qle_bool 0 q) then PInf else NInf.

Definition xmul (a b : num) : num :=
  match a, b with
  | NaN, _ => NaN
  | _, NaN => NaN
  | Fin x, Fin y => Fin (x * y)
  | PInf, Fin y => inf_times true y
  | NInf, Fin y => inf_times false y
  | Fin x, PInf => inf_times true x
  | Fin x, NInf => inf_times false x
  | PInf, PInf => PInf
  | NInf, NInf => PInf
  | PInf, NInf => NInf
  | NInf, PInf => NInf
  end.

(** [a > 0]: false on [nan]. *)
Definition xgt0 (a : num) : bool :=
  match a with
  | Fin q => negb (Qle_bool q 0)
  | PInf => true
  | NInf => false
  | NaN => false
  end.

(** [a // b] for a finite divisor [b], as numpy evaluates it: the floor of
    the quotient of finite numbers; with a zero divisor the quotient
    [a / b] itself, which is [inf], [-inf] or [nan]; [nan] for an infinite
    dividend and a non-zero divisor. *)
Definition xfloor_div (a : num) (b : Q) : num :=
  match a with
  | Fin q =>
      match floor_div q b with
      | Some n => Fin (inject_Z n)
      | None => true_div q b
      end
  | PInf => if Qeq_bool b 0 then PInf else NaN
  | NInf => if Qeq_bool b 0 then NInf else NaN
  | NaN => NaN
  end.

(** An entry of the [trades] list. *)
Inductive xtrade : Type :=
| XBUY (date : Date) (price : Q) (shares : num)
| XSELL (date : Date) (price : Q) (shares : num)
        (profit : num) (profit_pct : num).

(** An entry of the [portfolio_values] list. *)
Record xsnapshot : Type := mkXSnapshot {
  xsnap_Date : Date;
  xValue : num
}.

(** The local variables of [simulate_trades] that the loop updates. *)
Record xsim : Type := mkXSim {
  x_capital : num;
  x_shares : num;
  x_trades : list xtrade;
  x_portfolio_values : list xsnapshot;
  x_in_position : bool;
  x_entry_price : Q;
  x_entry_date : option Date
}.

Definition init_xsim (initial_capital : Q) : xsim :=
  mkXSim (Fin initial_capital) (Fin 0) [] [] false 0 None.

(** One iteration of the [for date, row in df.iterrows()] loop. *)
Definition xstep (s : xsim) (row : SigRow) : xsim :=
  let date := Date_ row in
  let current_price := Close row in
  let portfolio_value :=
    xadd (x_capital s) (xmul (x_shares s) (Fin current_price)) in
  let pv := x_portfolio_values s ++ [mkXSnapshot date portfolio_value] in
  if position_is row 2 && negb (x_in_position s) then
    (* [shares] is assigned before the test [shares > 0] *)
    let n := xfloor_div (x_capital s) current_price in
    if xgt0 n then
      let cost := xmul n (Fin current_price) in
      mkXSim (xsub (x_capital s) cost) n
             (x_trades s ++ [XBUY date current_price n])
             pv true current_price (Some date)
    else
      mkXSim (x_capital s) n (x_trades s) pv
             (x_in_position s) (x_entry_price s) (x_entry_date s)
  else if position_is row (-2) && x_in_position s then
    let revenue := xmul (x_shares s) (Fin current_price) in
    let profit := xmul (Fin (current_price - x_entry_price s)) (x_shares s) in
    let profit_pct :=
      times100 (true_div (current_price - x_entry_price s) (x_entry_price s)) in
    mkXSim (xadd (x_capital s) revenue) (Fin 0)
           (x_trades s
              ++ [XSELL date current_price (x_shares s) profit profit_pct])
           pv false 0 None
  else
    mkXSim (x_capital s) (x_shares s) (x_trades s) pv
           (x_in_position s) (x_entry_price s) (x_entry_date s).

(** The whole loop. *)
Fixpoint xrun (s : xsim) (rows : list SigRow) : xsim :=
  match rows with
  | [] => s
  | row :: rest => xrun (xstep s row) rest
  end.

(** The dictionary returned by [simulate_trades]. *)
Record xresults : Type := mkXResults {
  xres_trades : list xtrade;
  xres_portfolio_df : list xsnapshot;
  xres_final_value : num;
  xres_initial_capital : Q;
  xres_shares_held : num;
  xres_cash : num;
  xres_in_position : bool;
  xres_unrealized_profit : num;
  xres_unrealized_pct : num
}.

(** [simulate_trades]: the only exception is the [IndexError] of
    [df.iloc[-1]] on an empty frame. *)
Definition xsimulate_trades (df : list SigRow) (initial_capital : Q)
  : outcome xresults :=
  let df := dropna df in
  let s := xrun (init_xsim initial_capital) df in
  match iloc_last df with
  | Ok last =>
      let final_price := Close last in
      let final_value :=
        xadd (x_capital s) (xmul (x_shares s) (Fin final_price)) in
      let unrealized_profit :=
        if x_in_position s
        then xmul (Fin (final_price - x_entry_price s)) (x_shares s)
        else Fin 0 in
      let unrealized_pct :=
        if x_in_position s
        then times100 (true_div (final_price - x_entry_price s)
                                (x_entry_price s))
        else Fin 0 in
      Ok (mkXResults (x_trades s) (x_portfolio_values s) final_value
                     initial_capital (x_shares s) (x_capital s)
                     (x_in_position s) unrealized_profit unrealized_pct)
  | IndexError => IndexError
  | NonFinite => NonFinite
  end.

(** A finite state, trade, snapshot and result among the possibly
    non-finite ones. *)
Definition finite_trade (t : trade) : xtrade :=
  match t with
  | BUY date price n => XBUY date price (Fin (inject_Z n))
  | SELL date price n profit profit_pct =>
      XSELL date price (Fin (inject_Z n)) (Fin profit) profit_pct
  end.

Definition finite_snapshot (v : snapshot) : xsnapshot :=
  mkXSnapshot (snap_Date v) (Fin (Value v)).

Definition finite_sim (s : sim) : xsim :=
  mkXSim (Fin (capital s)) (Fin (inject_Z (shares s)))
         (map finite_trade (trades s))
         (map finite_snapshot (portfolio_values s))
         (in_position s) (entry_price s) (entry_date s).

Definition finite_results (r : results) : xresults :=
  mkXResults (map finite_trade (res_trades r))
             (map finite_snapshot (res_portfolio_df r))
             (Fin (res_final_value r)) (res_initial_capital r)
             (Fin (inject_Z (res_shares_held r))) (Fin (res_cash r))
             (res_in_position r) (Fin (res_unrealized_profit r))
             (res_unrealized_pct r).

(** ** calculate_metrics *)

Definition is_sell (t : trade) : bool :=
  match t with
  | SELL _ _ _ _ _ => true
  | BUY _ _ _ => false
  end.

(** [t["Profit"] > 0] on an entry of [sell_trades]. *)
Definition is_winning (t : trade) : bool :=
  match t with
  | SELL _ _ _ profit _ => negb (Qle_bool profit 0)
  | BUY _ _ _ => false
  end.

(** [Series.cummax()]: the running maximum, carried along the column. *)
Fixpoint cummax_from (peak : Q) (vs : list Q) : list Q :=
  match vs with
  | [] => []
  | v :: rest => let peak' := Qmax peak v in peak' :: cummax_from peak' rest
  end.

Definition cummax (vs : list Q) : list Q :=
  match vs with
  | [] => []
  | v :: rest => v :: cummax_from v rest
  end.

(** One cell of the [Drawdown] column. *)
Definition drawdown_cell (value peak : Q) : num :=
  times100 (true_div (value - peak) peak).

(** The smaller of two cells for [Series.min()], which skips NaN. *)
Definition num_min (a b : num) : num :=
  match a, b with
  | NaN, x => x
  | x, NaN => x
  | NInf, _ => NInf
  | _, NInf => NInf
  | PInf, x => x
  | x, PInf => x
  | Fin p, Fin q => Fin (Qmin p q)
  end.

Definition series_min (xs : list num) : num := fold_left num_min xs NaN.

(** The dictionary returned by [calculate_metrics]. *)
Record metrics : Type := mkMetrics {
  total_return : num;
  num_trades : nat;
  win_rate : Q;
  max_drawdown : num;
  final_value : Q;
  initial_capital : Q
}.

Definition calculate_metrics (res : results) : metrics :=
  let trades := res_trades res in
  let portfolio_df := res_portfolio_df res in
  let initial_capital := res_initial_capital res in
  let final_value := res_final_value res in
  let total_return :=
    times100 (true_div (final_value - initial_capital) initial_capital) in
  let sell_trades := filter is_sell trades in
  let num_trades := length sell_trades in
  let win_rate :=
    if (0 <? num_trades)%nat then
      let winning_trades := length (filter is_winning sell_trades) in
      inject_Z (Z.of_nat winning_trades) / inject_Z (Z.of_nat num_trades) * 100
    else 0 in
  let max_drawdown :=
    match portfolio_df with
    | [] => Fin 0
    | _ :: _ =>
        let values := map Value portfolio_df in
        let peak := cummax values in
        series_min (map (fun '(v, p) => drawdown_cell v p) (combine values peak))
    end in
  mkMetrics total_return num_trades win_rate max_drawdown
            final_value initial_capital.

(** The pipeline of [run_backtest] up to the simulator. *)
Definition signals_of_prices (prices : list Bar) (short_window long_window : nat)
  : list SigRow :=
  generate_signals (calculate_moving_averages prices short_window long_window).

Definition bars (closes : list Q) : list Bar :=
  map (fun '(i, c) => mkBar i c) (combine (seq 0 (length closes)) closes).

(** ** calculate_buy_and_hold *)

(** The dictionary returned by [calculate_buy_and_hold]. *)
Record buy_hold : Type := mkBuyHold {
  bh_start_price : Q;
  bh_end_price : Q;
  bh_shares : Z;
  bh_initial_capital : Q;
  bh_final_value : Q;
  bh_total_return : num;
  bh_max_drawdown : num
}.

(** [df.iloc[0]] and [df.iloc[-1]] on the input frame. *)
Definition bar_iloc_first (df : list Bar) : outcome Bar :=
  match df with
  | [] => IndexError
  | b :: _ => Ok b
  end.

Definition bar_iloc_last (df : list Bar) : outcome Bar :=
  match rev df with
  | [] => IndexError
  | b :: _ => Ok b
  end.

(** The [Drawdown] column computed from a column of values, and its
    minimum: the last four lines of the benchmark computation, the same
    expressions as in [calculate_metrics]. *)
Definition drawdown_min (values : list Q) : num :=
  let peak := cummax values in
  series_min (map (fun '(v, p) => drawdown_cell v p) (combine values peak)).

(** [calculate_buy_and_hold] on finite numbers.  With a first close of
    zero the share count [initial_capital // start_price] is [inf],
    [-inf] or [nan] and the function goes on with it: [NonFinite]. *)
Definition calculate_buy_and_hold (df : list Bar) (initial_capital : Q)
  : outcome buy_hold :=
  match bar_iloc_first df with
  | Ok first =>
      let start_price := bar_Close first in
      match bar_iloc_last df with
      | Ok last =>
          let end_price := bar_Close last in
          match floor_div initial_capital start_price with
          | None => NonFinite
          | Some shares =>
              let cost := inject_Z shares * start_price in
              let remaining_cash := initial_capital - cost in
              let final_value := inject_Z shares * end_price + remaining_cash in
              let total_return :=
                times100 (true_div (final_value - initial_capital) initial_capital) in
              let portfolio_values :=
                map (fun b => inject_Z shares * bar_Close b + remaining_cash) df in
              let max_drawdown := drawdown_min portfolio_values in
              Ok (mkBuyHold start_price end_price shares initial_capital
                            final_value total_return max_drawdown)
          end
      | IndexError => IndexError
      | NonFinite => NonFinite
      end
  | IndexError => IndexError
  | NonFinite => NonFinite
  end.

(** ** fetch_data and run_backtest *)

(** [fetch_data]: [history] stands for the frame that
    [stock.history(period=period)] returned; an empty one raises
    [ValueError]. *)
Inductive fetched : Type :=
| ValueError
| Frame (df : list Bar).

Definition fetch_data (history : list Bar) : fetched :=
  match history with
  | [] => ValueError
  | _ :: _ => Frame history
  end.

(** The outcome of [run_backtest]: the [ValueError] of [fetch_data], or
    what the computations on the fetched frame come to. *)
Inductive backtest (A : Type) : Type :=
| NoData
| Ran (o : outcome A).

Arguments NoData {A}.
Arguments Ran {A} o.

(** [run_backtest], console output left out: the three values it returns. *)
Definition run_backtest (history : list Bar) (short_window long_window : nat)
    (initial_capital : Q) : backtest (metrics * results * buy_hold) :=
  match fetch_data history with
  | ValueError => NoData
  | Frame df =>
      match calculate_buy_and_hold df initial_capital with
      | Ok bh =>
          let df1 := calculate_moving_averages df short_window long_window in
          let df2 := generate_signals df1 in
          match simulate_trades df2 initial_capital with
          | Ok res => Ran (Ok (calculate_metrics res, res, bh))
          | IndexError => Ran IndexError
          | NonFinite => Ran NonFinite
          end
      | IndexError => Ran IndexError
      | NonFinite => Ran NonFinite
      end
  end.

(** * Vocabulary of the statements *)

(** The simulation state proper: what [SimulationState] holds, without
    the two output lists. *)
Definition state_of (s : sim) : Q * Z * bool * Q * option Date :=
  (capital s, shares s, in_position s, entry_price s, entry_date s).

(** The snapshot list after a row has been visited from state [s]. *)
Definition recorded (s : sim) (row : SigRow) : list snapshot :=
  portfolio_values s ++
  [mkSnapshot (Date_ row) (capital s + inject_Z (shares s) * Close row)].

(** Concrete inputs used below. *)

(** Three closes that cross upwards on the third day, for windows 1 and 2. *)
Definition rising_prices : list Bar := bars [3; 2; 3].

(** The third row of [signals_of_prices rising_prices 1 2]. *)
Definition rising_row : SigRow :=
  mkSigRow 2%nat 3 (Some 3) (Some (5 # 2)) 1%Z (Some 2%Z).

(** The state in which that row is visited, for an initial capital [c]. *)
Definition visited_once (c : Q) : sim :=
  mkSim c 0 [] [mkSnapshot 1%nat (c + inject_Z 0 * 2)] false 0 None.


(** A state holding 333 shares bought at 3, and a row that crosses
    downwards at a close of 4. *)
Definition holding_state : sim :=
  mkSim 1 333 [BUY 2%nat 3 333] [mkSnapshot 2%nat 1000] true 3 (Some 2%nat).

Definition falling_row : SigRow :=
  mkSigRow 3%nat 4 (Some 4) (Some 5) (-1)%Z (Some (-2)%Z).

(** Reading a trade log from its first entry: [log_end holding l] is
    [Some h] when [l] alternates BUY, SELL, ... consistently with a
    position that is open ([holding = true]) or closed before its first
    entry, [h] telling whether the position is open after the last one;
    it is [None] as soon as a BUY follows a BUY or a SELL follows a SELL
    (or opens the log). *)
Fixpoint log_end (holding : bool) (l : list trade) : option bool :=
  match l with
  | [] => Some holding
  | BUY _ _ _ :: rest => if holding then None else log_end true rest
  | SELL _ _ _ _ _ :: rest => if holding then log_end false rest else None
  end.

(** The invariant of the simulator on positive prices. *)
Record state_ok (s : sim) : Prop := mk_state_ok {
  ok_cash : 0 <= capital s;
  ok_shares : (0 <= shares s)%Z;
  ok_position : in_position s = true <-> (0 < shares s)%Z;
  ok_bound : in_position s = true -> 0 < entry_price s;
  ok_log : log_end false (trades s) = Some (in_position s)
}.

Definition positive_close (r : SigRow) : Prop := 0 < Close r.


(** The open position of [s], the state after [k] rows of the run on
    [rows] from [initial_capital], was bought on row [j] of that run: the
    row was visited without a position, in a state [s0] holding the cash
    [capital s0]; the entry price is the close of the row, the share
    count is the floor of that cash over the close, and the cash of [s]
    is what the purchase left. *)
Definition bought_at (initial_capital : Q) (rows : list SigRow) (k : nat)
    (s : sim) : Prop :=
  exists j s0 row,
    (j < k)%nat /\
    run (init_sim initial_capital) (firstn j rows) = Ok s0 /\
    nth_error rows j = Some row /\
    in_position s0 = false /\
    entry_price s = Close row /\
    shares s = Qfloor (capital s0 / Close row) /\
    inject_Z (shares s) * Close row <= capital s0 /\
    capital s = capital s0 - inject_Z (shares s) * Close row.

(** The value of the holdings of state [s] at a price: cash plus shares
    times the price. *)
Definition mark_to_market (s : sim) (price : Q) : Q :=
  capital s + inject_Z (shares s) * price.

(** Drawdown as the specification words it.  [spec_peak vs t] is the
    maximum of the values up to and including day [t];
    [spec_drawdown vs t] is [(value(t) - peak(t)) / peak(t) * 100]. *)
Definition spec_peak (vs : list Q) (t : nat) : Q :=
  match firstn (S t) vs with
  | [] => 0
  | v :: rest => fold_left Qmax rest v
  end.

Definition spec_drawdown (vs : list Q) (t : nat) : Q :=
  (nth t vs 0 - spec_peak vs t) / spec_peak vs t * 100.

(** The same cell with the division of the program, which may be
    non-finite when the peak is zero. *)
Definition spec_drawdown_cell (vs : list Q) (t : nat) : num :=
  drawdown_cell (nth t vs 0) (spec_peak vs t).

(** Counting the entries of a list that satisfy a test. *)
Fixpoint count_if {A : Type} (p : A -> bool) (l : list A) : nat :=
  match l with
  | [] => 0
  | x :: rest => (if p x then 1 else 0) + count_if p rest
  end.

(** A win as the specification words it: a SELL entry whose profit is
    above zero. *)
Definition sell_with_gain (t : trade) : bool :=
  match t with
  | SELL _ _ _ profit _ => if Qlt_le_dec 0 profit then true else false
  | BUY _ _ _ => false
  end.

(** A trajectory and a trade log used as concrete inputs. *)
Definition sample_results : results :=
  mkResults
    [BUY 13%nat 15 66; SELL 16%nat 7 66 (-528) (Fin (-160 # 3));
     BUY 18%nat 22 21; SELL 19%nat 25 21 63 (Fin (150 # 11))]
    [mkSnapshot 12%nat 1000; mkSnapshot 16%nat 472; mkSnapshot 19%nat 535]
    535 1000 0 535 false 0 (Fin 0).

(** A series whose last two closes are negative and cross upwards on the
    third day, for windows 1 and 2; its third signal row; the state in
    which that row is visited from an initial capital of 1000. *)
Definition negative_prices : list Bar := bars [1; -5; -3].

Definition negative_row : SigRow :=
  mkSigRow 2%nat (-3) (Some (-3)) (Some (-8 # 2)) 1%Z (Some 2%Z).

Definition visited_negative : sim :=
  mkSim 1000 0 [] [mkSnapshot 1%nat (1000 + inject_Z 0 * -5)] false 0 None.

(** A series that crosses upwards at a close of zero on the third day,
    for windows 1 and 2, and downwards two days later; its third signal
    row; the state in which that row is visited from an initial capital
    of 1000. *)
Definition zero_prices : list Bar := bars [1; -1; 0; 5; 4].

Definition zero_row : SigRow :=
  mkSigRow 2%nat 0 (Some 0) (Some (-1 # 2)) 1%Z (Some 2%Z).

Definition visited_zero : xsim :=
  mkXSim (Fin 1000) (Fin 0) []
         [mkXSnapshot 1%nat (Fin (1000 + 0 * -1))] false 0 None.

(** A series that rises and falls back, read with a short window of 2
    and a long window of 1. *)
Definition dip_prices : list Bar := bars [10; 11; 10].

(** No crossover on a row: its [Position] is neither [2] nor [-2]. *)
Definition no_crossover (r : SigRow) : Prop :=
  Position r <> Some 2%Z /\ Position r <> Some (-2)%Z.

(** A cell of the [Position] column that is NaN or between -1 and 1. *)
Definition small_step (p : option Z) : Prop :=
  match p with
  | None => True
  | Some d => (-1 <= d <= 1)%Z
  end.

(** A series that crosses upwards at a negative close, falls back and
    crosses upwards again at a positive close (windows 1 and 2); the
    state in which its last row is visited from an initial capital of
    1000, and the state after that row. *)
Definition swing_prices : list Bar := bars [1; -5; -3; -4; 2].

Definition swing_row : SigRow :=
  mkSigRow 4%nat 2 (Some 2) (Some (-2 # 2)) 1%Z (Some 2%Z).

Definition before_swing_buy : sim :=
  mkSim 1000 (-334) []
        [mkSnapshot 1%nat 1000; mkSnapshot 2%nat 1000; mkSnapshot 3%nat 2336]
        false 0 None.

Definition after_swing_buy : sim :=
  mkSim 0 500 [BUY 4%nat 2 500]
        [mkSnapshot 1%nat 1000; mkSnapshot 2%nat 1000; mkSnapshot 3%nat 2336;
         mkSnapshot 4%nat 332]
        true 2 (Some 4%nat).

(** ** Frames read by index *)

(** The rows of the frames of the pipeline, written as functions of the
    row number.  [closes_of] is the [Close] column. *)
Definition closes_of (prices : list Bar) : list Q := map bar_Close prices.

Definition no_bar : Bar := mkBar 0%nat 0.

(** The signal and the position delta of row [i]. *)
Definition signal_at (prices : list Bar) (sw lw i : nat) : Z :=
  signal_of (rolling_mean_at sw (closes_of prices) i)
            (rolling_mean_at lw (closes_of prices) i).

Definition position_at (prices : list Bar) (sw lw i : nat) : option Z :=
  match i with
  | O => None
  | S j => Some (signal_at prices sw lw (S j) - signal_at prices sw lw j)%Z
  end.

Definition ma_row_at (prices : list Bar) (sw lw i : nat) : MARow :=
  mkMARow (bar_Date (nth i prices no_bar)) (bar_Close (nth i prices no_bar))
          (rolling_mean_at sw (closes_of prices) i)
          (rolling_mean_at lw (closes_of prices) i).

Definition sig_row_at (prices : list Bar) (sw lw i : nat) : SigRow :=
  mkSigRow (bar_Date (nth i prices no_bar)) (bar_Close (nth i prices no_bar))
           (rolling_mean_at sw (closes_of prices) i)
           (rolling_mean_at lw (closes_of prices) i)
           (signal_at prices sw lw i) (position_at prices sw lw i).

(** The number of leading rows that [dropna] removes when both windows
    are positive: the first row (its [Position] is NaN) and the rows on
    which the longer window is not filled yet. *)
Definition warmup (sw lw : nat) : nat := Nat.max 1 (Nat.max sw lw - 1).

(** The rows of [generate_signals df] as functions of the row number. *)
Definition no_ma : MARow := mkMARow 0%nat 0 None None.

Definition frame_signal_at (df : list MARow) (i : nat) : Z :=
  signal_of (ma_SMA_Short (nth i df no_ma)) (ma_SMA_Long (nth i df no_ma)).

Definition frame_position_at (df : list MARow) (i : nat) : option Z :=
  match i with
  | O => None
  | S j => Some (frame_signal_at df (S j) - frame_signal_at df j)%Z
  end.

Definition frame_row_at (df : list MARow) (i : nat) : SigRow :=
  mkSigRow (ma_Date (nth i df no_ma)) (ma_Close (nth i df no_ma))
           (ma_SMA_Short (nth i df no_ma)) (ma_SMA_Long (nth i df no_ma))
           (frame_signal_at df i) (frame_position_at df i).

(** ** The books of a run *)

(** Reading a trade log as a sequence of round trips.  [open] is the
    price and share count of the BUY that is still open, if any.  A BUY
    must find no open position and buy a positive number of shares; a
    SELL must close the open BUY: same share count, profit and profit
    percentage computed against the BUY price. *)
Fixpoint well_paired (open : option (Q * Z)) (l : list trade) : Prop :=
  match l with
  | [] => True
  | BUY _ p n :: rest =>
      open = None /\ (0 < n)%Z /\ well_paired (Some (p, n)) rest
  | SELL _ p n profit pct :: rest =>
      match open with
      | Some (p0, n0) =>
          n = n0 /\ profit = (p - p0) * inject_Z n0 /\
          pct = times100 (true_div (p - p0) p0) /\
          well_paired None rest
      | None => False
      end
  end.

(** The BUY left open by a log. *)
Fixpoint open_end (open : option (Q * Z)) (l : list trade) : option (Q * Z) :=
  match l with
  | [] => open
  | BUY _ p n :: rest => open_end (Some (p, n)) rest
  | SELL _ _ _ _ _ :: rest => open_end None rest
  end.

(** The profit booked by a trade, and the sum over a log. *)
Definition profit_of (t : trade) : Q :=
  match t with
  | BUY _ _ _ => 0
  | SELL _ _ _ profit _ => profit
  end.

Definition realized_profit (l : list trade) : Q := Qsum (map profit_of l).

(** The open position of a state, as the log should show it. *)
Definition open_position (s : sim) : option (Q * Z) :=
  if in_position s then Some (entry_price s, shares s) else None.

(** The cash tied up in the open position, at cost. *)
Definition cost_basis (s : sim) : Q :=
  if in_position s then inject_Z (shares s) * entry_price s else 0.

(** What the loop keeps true of its books, whatever the rows. *)
Record books_ok (c0 : Q) (s : sim) : Prop := mk_books_ok {
  bk_pairs : well_paired None (trades s);
  bk_open : open_end None (trades s) = open_position s;
  bk_cash : capital s + cost_basis s == c0 + realized_profit (trades s)
}.

(** One for an open position, zero otherwise. *)
Definition open_count (o : option (Q * Z)) : nat :=
  match o with
  | Some _ => 1
  | None => 0
  end.

(** The invariant of the simulator for a positive initial capital: on
    top of [state_ok], the cash is positive while no position is open. *)
Definition solvent (s : sim) : Prop :=
  state_ok s /\ (in_position s = false -> 0 < capital s).

(** A series that stays at 5. *)
Definition flat_prices : list Bar := bars [5; 5; 5].

(** A trade is executed on a row: at the row's date and close, a BUY on a
    row with [Position == 2], a SELL on a row with [Position == -2]. *)
Definition executed_on (t : trade) (r : SigRow) : Prop :=
  match t with
  | BUY d p _ => Date_ r = d /\ Close r = p /\ Position r = Some 2%Z
  | SELL d p _ _ _ => Date_ r = d /\ Close r = p /\ Position r = Some (-2)%Z
  end.

(** On every row of an indicator frame where both averages are present:
    the short one is at or below the long one; the short one is above
    the long one. *)
Definition short_never_above (df : list MARow) : Prop :=
  forall m s l, In m df ->
    ma_SMA_Short m = Some s -> ma_SMA_Long m = Some l -> s <= l.

Definition short_always_above (df : list MARow) : Prop :=
  forall m s l, In m df ->
    ma_SMA_Short m = Some s -> ma_SMA_Long m = Some l -> l < s.

(** Five closes of a steady rally. *)
Definition rally_prices : list Bar := bars [10; 11; 12; 13; 14].

(** A rise, a further rise and a fall: one round trip that sells above
    its purchase price, for windows 1 and 2. *)
Definition round_trip_prices : list Bar := bars [3; 2; 3; 5; 4].

(** What [simulate_trades] returns on it from an initial capital of 1000. *)
Definition round_trip_results : results :=
  mkResults
    [BUY 2%nat 3 333; SELL 4%nat 4 333 333 (Fin (100 # 3))]
    [mkSnapshot 1%nat 1000; mkSnapshot 2%nat 1000;
     mkSnapshot 3%nat 1666; mkSnapshot 4%nat 1333]
    1333 1000 0 1333 false 0 (Fin 0).

(** * Properties *)

(** ** Basic facts about the numeric helpers *)

Lemma floor_div_nonzero (a b : Q) :
  ~ b == 0 -> floor_div a b = Some (Qfloor (a / b)).
Proof.
  intros Hb. unfold floor_div.
  destruct (Qeq_bool b 0) eqn:E; [|reflexivity].
  apply Qeq_bool_iff in E. contradiction.
Qed.

Lemma true_div_nonzero (a b : Q) :
  ~ b == 0 -> true_div a b = Fin (a / b).
Proof.
  intros Hb. unfold true_div.
  destruct (Qeq_bool b 0) eqn:E; [|reflexivity].
  apply Qeq_bool_iff in E. contradiction.
Qed.

Lemma position_is_true (r : SigRow) (k : Z) :
  position_is r k = true <-> Position r = Some k.
Proof.
  unfold position_is. destruct (Position r) as [p|].
  - rewrite Z.eqb_eq. split; congruence.
  - split; discriminate.
Qed.

(** ** C1: the empty filtered frame *)

(** C1.  When no row survives [dropna], the loop body never runs and
    [df.iloc[-1]] is evaluated on an empty frame: [simulate_trades] ends
    in [IndexError] instead of returning the degenerate result (empty
    trade log, final value equal to the initial capital) that the
    specification asks for. *)
Theorem simulate_trades_empty_raises (df : list SigRow) (initial_capital : Q) :
  dropna df = [] -> simulate_trades df initial_capital = IndexError.
Proof.
  intros H. unfold simulate_trades. rewrite H. reflexivity.
Qed.

Lemma simulate_trades_empty_raises_witness :
  dropna (signals_of_prices (bars [10]) 3 5) = [] /\
  simulate_trades (signals_of_prices (bars [10]) 3 5) 1000 = IndexError.
Proof.
  split; [reflexivity|].
  apply (simulate_trades_empty_raises (signals_of_prices (bars [10]) 3 5) 1000).
  reflexivity.
Defined.

(** ** C2: the BUY transition *)

(** C2 (as the code has it).  On a row with [Position == 2], visited while
    not in position, at a close price [p > 0] and with cash [c], let
    [n = floor (c / p)].  When [n <= 0] no trade is appended and cash,
    [in_position], entry price and entry date are kept; when [n = 0] and
    no shares are held the state is unchanged altogether.  When [n > 0]
    exactly [n] shares are bought: cash decreases by [n * p], the position
    is open with entry price [p] and entry date the row's date, and one
    BUY trade with those fields is appended. *)
Theorem buy_transition (s : sim) (row : SigRow) :
  in_position s = false ->
  position_is row 2 = true ->
  0 < Close row ->
  let p := Close row in
  let n := Qfloor (capital s / p) in
  ((n <= 0)%Z ->
     step s row =
       Ok (mkSim (capital s) n (trades s) (recorded s row)
                 false (entry_price s) (entry_date s))) /\
  (n = 0%Z -> shares s = 0%Z ->
     exists s', step s row = Ok s' /\ state_of s' = state_of s /\
                trades s' = trades s) /\
  ((0 < n)%Z ->
     step s row =
       Ok (mkSim (capital s - inject_Z n * p) n
                 (trades s ++ [BUY (Date_ row) p n]) (recorded s row)
                 true p (Some (Date_ row)))).
Proof.
  intros Hpos Hrow Hp p n.
  assert (Hstep : step s row =
            if (n >? 0)%Z
            then Ok (mkSim (capital s - inject_Z n * p) n
                           (trades s ++ [BUY (Date_ row) p n]) (recorded s row)
                           true p (Some (Date_ row)))
            else Ok (mkSim (capital s) n (trades s) (recorded s row)
                           false (entry_price s) (entry_date s))).
  { unfold step. rewrite Hrow, Hpos. simpl.
    rewrite floor_div_nonzero by (intro E; rewrite E in Hp; inversion Hp).
    reflexivity. }
  split; [|split].
  - intros Hn. rewrite Hstep.
    destruct (n >? 0)%Z eqn:E; [apply Z.gtb_lt in E; lia | reflexivity].
  - intros Hn0 Hsh.
    rewrite Hstep.
    destruct (n >? 0)%Z eqn:E; [apply Z.gtb_lt in E; lia|].
    eexists. split; [reflexivity|]. unfold state_of. simpl.
    rewrite Hn0, Hpos, Hsh. split; reflexivity.
  - intros Hn. rewrite Hstep.
    destruct (n >? 0)%Z eqn:E; [reflexivity|].
    rewrite Z.gtb_ltb, Z.ltb_ge in E. lia.
Qed.

Lemma buy_transition_witness :
  in_position (visited_once 1000) = false /\
  position_is rising_row 2 = true /\
  0 < Close rising_row /\
  step (visited_once 1000) rising_row =
    Ok (mkSim (1000 - inject_Z 333 * 3) 333 [BUY 2%nat 3 333]
              (recorded (visited_once 1000) rising_row) true 3 (Some 2%nat)).
Proof.
  split; [reflexivity|]. split; [reflexivity|]. split; [reflexivity|].
  destruct (buy_transition (visited_once 1000) rising_row
              eq_refl eq_refl eq_refl) as (_ & _ & H).
  apply H. reflexivity.
Defined.

(** C2 fails as stated when the cash is negative: on the third day of
    [rising_prices] with an initial capital of [-5] the row has
    [Position == 2], the simulator is not in position, the close is [3] and
    [floor (-5 / 3) = -2] is not zero, yet no share is purchased and no
    BUY trade is appended; the share count is overwritten with [-2]. *)
Lemma buy_negative_cash_counterexample :
  nth_error (dropna (signals_of_prices rising_prices 1 2)) 1 = Some rising_row /\
  run (init_sim (-5)) (firstn 1 (dropna (signals_of_prices rising_prices 1 2)))
    = Ok (visited_once (-5)) /\
  in_position (visited_once (-5)) = false /\
  Position rising_row = Some 2%Z /\
  0 < Close rising_row /\
  Qfloor (capital (visited_once (-5)) / Close rising_row) = (-2)%Z /\
  step (visited_once (-5)) rising_row =
    Ok (mkSim (-5) (-2) [] (recorded (visited_once (-5)) rising_row)
              false 0 None) /\
  simulate_trades (signals_of_prices rising_prices 1 2) (-5) =
    Ok (mkResults [] (recorded (visited_once (-5)) rising_row)
                  (-5 + inject_Z (-2) * 3) (-5) (-2) (-5) false 0 (Fin 0)).
Proof. repeat split. Qed.

(** ** C3: the SELL transition *)

(** C3.  On a row with [Position == -2], visited while in position, the
    simulator adds [shares * price] to the cash, appends one SELL trade
    with profit [(price - entry_price) * shares] and profit percentage
    [(price - entry_price) / entry_price * 100], and resets the share
    count to 0, the position flag to false and the entry price and date. *)
Theorem sell_transition (s : sim) (row : SigRow) :
  in_position s = true ->
  position_is row (-2) = true ->
  let p := Close row in
  let e := entry_price s in
  step s row =
    Ok (mkSim (capital s + inject_Z (shares s) * p) 0
              (trades s ++
               [SELL (Date_ row) p (shares s) ((p - e) * inject_Z (shares s))
                     (times100 (true_div (p - e) e))])
              (recorded s row) false 0 None) /\
  (~ e == 0 -> times100 (true_div (p - e) e) = Fin ((p - e) / e * 100)).
Proof.
  intros Hpos Hrow p e. split.
  - unfold step. rewrite Hpos, Hrow. simpl.
    rewrite andb_false_r. reflexivity.
  - intros He. rewrite true_div_nonzero by exact He. reflexivity.
Qed.

Lemma sell_transition_witness :
  in_position holding_state = true /\
  position_is falling_row (-2) = true /\
  step holding_state falling_row =
    Ok (mkSim (1 + inject_Z 333 * 4) 0
              [BUY 2%nat 3 333;
               SELL 3%nat 4 333 ((4 - 3) * inject_Z 333)
                    (Fin ((4 - 3) / 3 * 100))]
              (recorded holding_state falling_row) false 0 None).
Proof.
  split; [reflexivity|]. split; [reflexivity|].
  exact (proj1 (sell_transition holding_state falling_row eq_refl eq_refl)).
Defined.

(** ** C4: the signal of a filtered row *)

Lemma in_combine_map_fst {A B C : Type} (g : A -> B) (l : list A) (x : A) (y : B) (z : C)
    (zs : list C) :
  In (x, (y, z)) (combine l (combine (map g l) zs)) -> y = g x.
Proof.
  revert zs. induction l as [|a l IH]; intros zs H; [contradiction|].
  destruct zs as [|z0 zs]; [contradiction|].
  simpl in H. destruct H as [H|H].
  - inversion H. reflexivity.
  - eapply IH. exact H.
Qed.

(** Every row produced by [generate_signals] keeps the columns of its
    source row and carries the signal computed from its two averages. *)
Lemma generate_signals_row (df : list MARow) (r : SigRow) :
  In r (generate_signals df) ->
  Signal r = signal_of (SMA_Short r) (SMA_Long r) /\
  exists m, In m df /\ Close r = ma_Close m /\
            SMA_Short r = ma_SMA_Short m /\ SMA_Long r = ma_SMA_Long m.
Proof.
  unfold generate_signals. intros H.
  apply in_map_iff in H. destruct H as [[m [sg p]] [Hr Hin]].
  subst r. simpl.
  pose proof (in_combine_l _ _ _ _ Hin) as Hm.
  apply in_combine_map_fst in Hin. subst sg.
  split; [reflexivity|]. exists m. auto.
Qed.

Lemma signal_of_defined (s l : Q) :
  signal_of (Some s) (Some l) = if Qle_bool s l then (-1)%Z else 1%Z.
Proof.
  unfold signal_of, gt_cell, le_cell. destruct (Qle_bool s l); reflexivity.
Qed.

(** C4.  Every row that survives [dropna] has both averages defined; its
    signal is [+1] exactly when the short average is strictly greater
    than the long one and [-1] otherwise (in particular when they are
    equal), so the value [0] never reaches the simulator. *)
Theorem filtered_signal (df : list MARow) (r : SigRow) :
  In r (dropna (generate_signals df)) ->
  exists s l,
    SMA_Short r = Some s /\ SMA_Long r = Some l /\
    (Signal r = 1%Z <-> l < s) /\
    (Signal r = (-1)%Z <-> s <= l) /\
    (s == l -> Signal r = (-1)%Z) /\
    (Signal r = 1%Z \/ Signal r = (-1)%Z).
Proof.
  unfold dropna. intros H. apply filter_In in H. destruct H as [Hin Hnan].
  apply generate_signals_row in Hin. destruct Hin as [Hsig _].
  unfold has_no_nan in Hnan.
  destruct (SMA_Short r) as [s|]; [|discriminate].
  destruct (SMA_Long r) as [l|]; [|discriminate].
  exists s, l. rewrite Hsig, signal_of_defined.
  destruct (Qle_bool s l) eqn:E.
  - apply Qle_bool_iff in E.
    repeat split; auto; try discriminate; intros; lra.
  - assert (Hlt : l < s).
    { apply Qnot_le_lt. intros Hle. apply Qle_bool_iff in Hle. congruence. }
    repeat split; auto; try discriminate; intros; lra.
Qed.

Lemma filtered_signal_witness :
  In rising_row (dropna (generate_signals (calculate_moving_averages rising_prices 1 2))) /\
  exists s l,
    SMA_Short rising_row = Some s /\ SMA_Long rising_row = Some l /\
    (Signal rising_row = 1%Z <-> l < s) /\
    (Signal rising_row = (-1)%Z <-> s <= l) /\
    (s == l -> Signal rising_row = (-1)%Z) /\
    (Signal rising_row = 1%Z \/ Signal rising_row = (-1)%Z).
Proof.
  assert (H : In rising_row
                (dropna (generate_signals (calculate_moving_averages rising_prices 1 2)))).
  { simpl. right. left. reflexivity. }
  split; [exact H|].
  exact (filtered_signal _ rising_row H).
Defined.

(** ** C1, continued: series dropped by the warm-up *)

Lemma filter_none {A : Type} (f : A -> bool) (l : list A) :
  (forall x, In x l -> f x = false) -> filter f l = [].
Proof.
  induction l as [|a l IH]; intros H; [reflexivity|].
  simpl. rewrite (H a) by (left; reflexivity).
  apply IH. intros x Hx. apply H. right. exact Hx.
Qed.

(** A series shorter than the long window is dropped entirely by the
    warm-up filter. *)
Lemma short_series_all_dropped (prices : list Bar) (sw lw : nat) :
  (length prices < lw)%nat -> dropna (signals_of_prices prices sw lw) = [].
Proof.
  intros Hlen. unfold dropna. apply filter_none. intros r Hr.
  unfold signals_of_prices in Hr.
  apply generate_signals_row in Hr. destruct Hr as [_ [m [Hm [_ [_ Hl]]]]].
  unfold calculate_moving_averages in Hm.
  apply in_map_iff in Hm. destruct Hm as [[b [s l]] [Hmk Hin]].
  apply in_combine_r in Hin. apply in_combine_r in Hin.
  unfold rolling_mean in Hin. apply in_map_iff in Hin.
  destruct Hin as [i [Hi Hseq]]. apply in_seq in Hseq.
  rewrite length_map in Hseq.
  assert (El : l = None).
  { rewrite <- Hi. unfold rolling_mean_at.
    assert (E : (i + 1 <? lw)%nat = true) by (apply Nat.ltb_lt; lia).
    rewrite E, orb_true_r. reflexivity. }
  unfold has_no_nan. rewrite Hl, <- Hmk. simpl. rewrite El.
  destruct (SMA_Short r); reflexivity.
Qed.

(** The empty price series and a series shorter than the long window
    both end in the exception. *)
Example simulate_trades_no_prices :
  simulate_trades (signals_of_prices [] 20 50) 10000 = IndexError.
Proof. reflexivity. Qed.

Example simulate_trades_short_series :
  simulate_trades (signals_of_prices (bars [10; 11; 12]) 20 50) 10000 = IndexError.
Proof. reflexivity. Qed.

(** ** C10: the invariant of the simulator *)

Lemma log_end_app (h : bool) (l1 l2 : list trade) :
  log_end h (l1 ++ l2) =
  match log_end h l1 with
  | Some h' => log_end h' l2
  | None => None
  end.
Proof.
  revert h. induction l1 as [|t l1 IH]; intros h; [reflexivity|].
  destruct t; destruct h; simpl; auto.
Qed.

(** A log accepted by [log_end] has its BUY entries at the even places and
    its SELL entries at the odd ones (the other way round when it starts
    from an open position). *)
Lemma log_end_parity (l : list trade) (h h' : bool) :
  log_end h l = Some h' ->
  h' = xorb h (Nat.odd (length l)) /\
  forall i t, nth_error l i = Some t -> is_sell t = xorb h (Nat.odd i).
Proof.
  revert h. induction l as [|t0 l IH]; intros h H.
  - simpl in H. injection H as <-. split.
    + destruct h; reflexivity.
    + intros i t Hi. destruct i; discriminate.
  - assert (Hcase : is_sell t0 = h /\ log_end (negb h) l = Some h').
    { destruct t0, h; simpl in H; try discriminate; split; auto. }
    destruct Hcase as [Ht0 Hrest].
    destruct (IH _ Hrest) as [Hend Hnth]. split.
    + rewrite Hend. cbn [length]. rewrite Nat.odd_succ, <- Nat.negb_odd.
      destruct h, (Nat.odd (length l)); reflexivity.
    + intros i t Hi. destruct i as [|i].
      * simpl in Hi. injection Hi as <-. rewrite Ht0. destruct h; reflexivity.
      * simpl in Hi. rewrite (Hnth i t Hi).
        rewrite Nat.odd_succ, <- Nat.negb_odd.
        destruct h, (Nat.odd i); reflexivity.
Qed.

Lemma floor_nonneg (c p : Q) : 0 <= c -> 0 < p -> (0 <= Qfloor (c / p))%Z.
Proof.
  intros Hc Hp. rewrite <- (Qfloor_Z 0). apply Qfloor_resp_le.
  apply Qle_shift_div_l; [exact Hp|]. rewrite Qmult_0_l. exact Hc.
Qed.

Lemma floor_cost_le (c p : Q) : 0 < p -> inject_Z (Qfloor (c / p)) * p <= c.
Proof.
  intros Hp.
  assert (H : inject_Z (Qfloor (c / p)) * p <= (c / p) * p).
  { apply Qmult_le_compat_r; [apply Qfloor_le | apply Qlt_le_weak; exact Hp]. }
  assert (E : (c / p) * p == c) by (field; intro E; rewrite E in Hp; inversion Hp).
  rewrite E in H. exact H.
Qed.

Lemma init_sim_ok (c : Q) : 0 <= c -> state_ok (init_sim c).
Proof.
  intros Hc. constructor; simpl.
  - exact Hc.
  - lia.
  - split; [discriminate | lia].
  - discriminate.
  - reflexivity.
Qed.

(** One iteration at a positive close succeeds and keeps the invariant. *)
(** Reduce the projections of a state built by [mkSim], and nothing else. *)
Ltac proj_simpl :=
  cbn [capital shares trades portfolio_values in_position entry_price entry_date].

Lemma step_ok (s : sim) (row : SigRow) :
  state_ok s -> 0 < Close row ->
  exists s', step s row = Ok s' /\ state_ok s'.
Proof.
  intros [Hc Hs Hp Hb Hl] Hpr.
  assert (Hnz : ~ Close row == 0) by (intro E; rewrite E in Hpr; inversion Hpr).
  unfold step.
  destruct (position_is row 2 && negb (in_position s)) eqn:Ebuy.
  - apply andb_true_iff in Ebuy. destruct Ebuy as [_ Eflat].
    apply negb_true_iff in Eflat.
    rewrite floor_div_nonzero by exact Hnz.
    pose proof (floor_nonneg _ _ Hc Hpr) as Hn.
    destruct (Qfloor (capital s / Close row) >? 0)%Z eqn:En.
    + apply Z.gtb_lt in En. eexists. split; [reflexivity|].
      constructor; proj_simpl.
      * pose proof (floor_cost_le (capital s) (Close row) Hpr). lra.
      * exact Hn.
      * split; auto.
      * intros _. exact Hpr.
      * rewrite log_end_app, Hl, Eflat. reflexivity.
    + rewrite Z.gtb_ltb, Z.ltb_ge in En. eexists. split; [reflexivity|].
      constructor; proj_simpl.
      * exact Hc.
      * exact Hn.
      * rewrite Eflat. split; [discriminate | lia].
      * rewrite Eflat. discriminate.
      * exact Hl.
  - destruct (position_is row (-2) && in_position s) eqn:Esell.
    + apply andb_true_iff in Esell. destruct Esell as [_ Ein].
      eexists. split; [reflexivity|].
      constructor; proj_simpl.
      * assert (0 <= inject_Z (shares s) * Close row).
        { apply Qmult_le_0_compat; [|apply Qlt_le_weak; exact Hpr].
          change 0 with (inject_Z 0). rewrite <- Zle_Qle. exact Hs. }
        lra.
      * lia.
      * split; [discriminate | lia].
      * discriminate.
      * rewrite log_end_app, Hl, Ein. reflexivity.
    + eexists. split; [reflexivity|].
      constructor; proj_simpl; assumption.
Qed.

Lemma run_ok (rows : list SigRow) (s : sim) :
  state_ok s -> Forall positive_close rows ->
  exists s', run s rows = Ok s' /\ state_ok s'.
Proof.
  revert s. induction rows as [|row rows IH]; intros s Hs Hrows.
  - exists s. split; [reflexivity | exact Hs].
  - inversion Hrows as [|? ? Hrow Hrest]; subst.
    destruct (step_ok s row Hs Hrow) as [s1 [E1 H1]].
    simpl. rewrite E1. apply IH; assumption.
Qed.

(** The rows handed to the simulator carry closes of the input series. *)
Lemma signals_of_prices_close (prices : list Bar) (sw lw : nat) (r : SigRow) :
  In r (signals_of_prices prices sw lw) ->
  exists b, In b prices /\ Close r = bar_Close b.
Proof.
  unfold signals_of_prices. intros H.
  apply generate_signals_row in H. destruct H as [_ [m [Hm [Hc _]]]].
  unfold calculate_moving_averages in Hm.
  apply in_map_iff in Hm. destruct Hm as [[b [s l]] [Hmk Hin]].
  apply in_combine_l in Hin. exists b. split; [exact Hin|].
  rewrite Hc, <- Hmk. reflexivity.
Qed.

Lemma Forall_prefix {A : Type} (P : A -> Prop) (k : nat) (l : list A) :
  Forall P l -> Forall P (firstn k l).
Proof.
  intros H. rewrite <- (firstn_skipn k l) in H.
  apply Forall_app in H. apply H.
Qed.

Lemma filtered_positive (prices : list Bar) (sw lw : nat) :
  Forall (fun b => 0 < bar_Close b) prices ->
  Forall positive_close (dropna (signals_of_prices prices sw lw)).
Proof.
  intros H. apply Forall_forall. intros r Hr.
  unfold dropna in Hr. apply filter_In in Hr. destruct Hr as [Hr _].
  apply signals_of_prices_close in Hr. destruct Hr as [b [Hb Hc]].
  rewrite Forall_forall in H. unfold positive_close. rewrite Hc. apply H. exact Hb.
Qed.

Lemma run_app (rows1 rows2 : list SigRow) (s : sim) :
  run s (rows1 ++ rows2) =
  match run s rows1 with
  | Ok s1 => run s1 rows2
  | IndexError => IndexError
  | NonFinite => NonFinite
  end.
Proof.
  revert s. induction rows1 as [|r rows1 IH]; intros s; [reflexivity|].
  simpl. destruct (step s r); auto.
Qed.

Lemma firstn_succ_snoc {A : Type} (l : list A) (k : nat) (x : A) :
  nth_error l k = Some x -> firstn (S k) l = firstn k l ++ [x].
Proof.
  revert k. induction l as [|a l IH]; intros [|k] H; try discriminate.
  - simpl in H. injection H as ->. reflexivity.
  - simpl in H. change (firstn (S (S k)) (a :: l)) with (a :: firstn (S k) l).
    rewrite (IH k H). reflexivity.
Qed.

Lemma firstn_succ_all {A : Type} (l : list A) (k : nat) :
  nth_error l k = None -> firstn (S k) l = firstn k l.
Proof.
  intros H. apply nth_error_None in H.
  rewrite !firstn_all2 by lia. reflexivity.
Qed.

(** A state that holds a position after an iteration: either the
    position was held before and nothing of it changed, or the iteration
    bought it, with the floor of the cash it found over the close. *)
Lemma step_position (s s' : sim) (row : SigRow) :
  step s row = Ok s' -> in_position s' = true ->
  (in_position s = true /\ shares s' = shares s /\
   entry_price s' = entry_price s /\ capital s' = capital s) \/
  (in_position s = false /\
   shares s' = Qfloor (capital s / Close row) /\
   entry_price s' = Close row /\
   capital s' = capital s - inject_Z (shares s') * Close row).
Proof.
  unfold step.
  destruct (position_is row 2 && negb (in_position s)) eqn:Ebuy.
  - apply andb_true_iff in Ebuy. destruct Ebuy as [_ Eflat].
    apply negb_true_iff in Eflat.
    unfold floor_div. destruct (Qeq_bool (Close row) 0); [discriminate|].
    destruct (Qfloor (capital s / Close row) >? 0)%Z;
      intros H Hin; injection H as <-; proj_simpl.
    + right. proj_simpl. auto.
    + cbn [in_position] in Hin. congruence.
  - destruct (position_is row (-2) && in_position s);
      intros H Hin; injection H as <-.
    + cbn [in_position] in Hin. discriminate.
    + cbn [in_position] in Hin. left. proj_simpl. auto.
Qed.

Lemma bought_at_later (c : Q) (rows : list SigRow) (k : nat) (s s' : sim) :
  bought_at c rows k s ->
  shares s' = shares s -> entry_price s' = entry_price s ->
  capital s' = capital s ->
  bought_at c rows (S k) s'.
Proof.
  intros (j & s0 & row & Hj & Hrun & Hnth & Hflat & He & Hs & Hle & Hc)
         Es Ee Ec.
  exists j, s0, row. rewrite Es, Ee, Ec.
  split; [lia|]. repeat (split; [assumption|]). assumption.
Qed.

(** Every prefix of a run on positive closes ends in a state that
    satisfies the invariant and whose open position, if any, was bought
    on an earlier row of the run. *)
Lemma run_prefix_ok (c : Q) (rows : list SigRow) (k : nat) :
  0 <= c -> Forall positive_close rows ->
  exists s,
    run (init_sim c) (firstn k rows) = Ok s /\ state_ok s /\
    (in_position s = true -> bought_at c rows k s).
Proof.
  intros Hc Hrows. induction k as [|k IH].
  - exists (init_sim c). split; [reflexivity|].
    split; [apply init_sim_ok; exact Hc | discriminate].
  - destruct IH as [s [Hrun [Hok Hb]]].
    destruct (nth_error rows k) as [r|] eqn:Enth.
    + assert (Hr : positive_close r).
      { rewrite Forall_forall in Hrows. apply Hrows.
        eapply nth_error_In. exact Enth. }
      destruct (step_ok s r Hok Hr) as [s' [Hstep Hok']].
      exists s'. split; [|split; [exact Hok'|]].
      * rewrite (firstn_succ_snoc _ _ _ Enth), run_app, Hrun.
        simpl. rewrite Hstep. reflexivity.
      * intros Hin.
        destruct (step_position _ _ _ Hstep Hin)
          as [(Hin0 & Es & Ee & Ec) | (Hflat & Es & Ee & Ec)].
        -- apply (bought_at_later c rows k s s' (Hb Hin0) Es Ee Ec).
        -- exists k, s, r. split; [lia|].
           split; [exact Hrun|]. split; [exact Enth|].
           split; [exact Hflat|]. split; [exact Ee|].
           split; [exact Es|]. split; [|exact Ec].
           rewrite Es. apply floor_cost_le. exact Hr.
    + exists s. split; [|split; [exact Hok|]].
      * rewrite (firstn_succ_all _ _ Enth). exact Hrun.
      * intros Hin.
        apply (bought_at_later c rows k s s (Hb Hin));
          reflexivity.
Qed.

(** C10.  For a price series with strictly positive closes and a
    non-negative initial capital, the simulator reaches a state after
    every prefix of the filtered signal rows, and that state satisfies:
    the cash is non-negative; the share count is a non-negative integer;
    while a position is open, the shares were bought on an earlier row of
    this run, visited without a position, at the entry price, and their
    number is the floor of the cash held on that row over its close, so
    that they cost no more than that cash, which the purchase debited
    and which has not changed since; a position is open exactly when
    shares are held; the trade log alternates BUY, SELL, BUY, ... from a
    BUY (its entries at even places are BUY, those at odd places SELL),
    the position being open exactly when the log has an odd number of
    entries. *)
Theorem simulator_invariant
    (prices : list Bar) (short_window long_window : nat)
    (initial_capital : Q) (k : nat) :
  Forall (fun b => 0 < bar_Close b) prices ->
  0 <= initial_capital ->
  let rows := dropna (signals_of_prices prices short_window long_window) in
  exists s,
    run (init_sim initial_capital) (firstn k rows) = Ok s /\
    0 <= capital s /\
    (0 <= shares s)%Z /\
    (in_position s = true ->
       0 < entry_price s /\
       exists j s0 row,
         (j < k)%nat /\
         run (init_sim initial_capital) (firstn j rows) = Ok s0 /\
         nth_error rows j = Some row /\
         in_position s0 = false /\
         entry_price s = Close row /\
         shares s = Qfloor (capital s0 / Close row) /\
         inject_Z (shares s) * Close row <= capital s0 /\
         capital s = capital s0 - inject_Z (shares s) * Close row) /\
    (in_position s = true <-> (0 < shares s)%Z) /\
    (forall i t, nth_error (trades s) i = Some t -> is_sell t = Nat.odd i) /\
    in_position s = Nat.odd (length (trades s)).
Proof.
  intros Hprices Hcap rows.
  destruct (run_prefix_ok initial_capital rows k Hcap)
    as [s [Hrun [[Hc Hs Hp Hb Hl] Hbought]]].
  - apply filtered_positive. exact Hprices.
  - destruct (log_end_parity _ _ _ Hl) as [Hend Hnth].
    exists s. split; [exact Hrun|]. split; [exact Hc|]. split; [exact Hs|].
    split; [|split; [exact Hp|split; [exact Hnth | exact Hend]]].
    intros Hin. split; [exact (Hb Hin) | exact (Hbought Hin)].
Qed.

Lemma simulator_invariant_witness :
  Forall (fun b => 0 < bar_Close b) rising_prices /\
  0 <= 1000 /\
  exists s,
    run (init_sim 1000) (firstn 2 (dropna (signals_of_prices rising_prices 1 2)))
      = Ok s /\
    0 <= capital s /\
    (0 <= shares s)%Z /\
    (in_position s = true ->
       0 < entry_price s /\
       exists j s0 row,
         (j < 2)%nat /\
         run (init_sim 1000)
             (firstn j (dropna (signals_of_prices rising_prices 1 2))) = Ok s0 /\
         nth_error (dropna (signals_of_prices rising_prices 1 2)) j = Some row /\
         in_position s0 = false /\
         entry_price s = Close row /\
         shares s = Qfloor (capital s0 / Close row) /\
         inject_Z (shares s) * Close row <= capital s0 /\
         capital s = capital s0 - inject_Z (shares s) * Close row) /\
    (in_position s = true <-> (0 < shares s)%Z) /\
    (forall i t, nth_error (trades s) i = Some t -> is_sell t = Nat.odd i) /\
    in_position s = Nat.odd (length (trades s)).
Proof.
  assert (H1 : Forall (fun b => 0 < bar_Close b) rising_prices).
  { repeat constructor. }
  assert (H2 : 0 <= 1000) by discriminate.
  split; [exact H1|]. split; [exact H2|].
  exact (simulator_invariant rising_prices 1 2 1000 2 H1 H2).
Defined.

(** The state after two rows of the run on [rising_prices]: the position
    was bought on the second row with the whole cash of 1000, 333 shares
    at 3. *)
Example rising_prices_position :
  run (init_sim 1000) (firstn 1 (dropna (signals_of_prices rising_prices 1 2)))
    = Ok (mkSim 1000 0 [] [mkSnapshot 1%nat 1000] false 0 None) /\
  nth_error (dropna (signals_of_prices rising_prices 1 2)) 1 = Some rising_row /\
  run (init_sim 1000) (firstn 2 (dropna (signals_of_prices rising_prices 1 2)))
    = Ok (mkSim 1 333 [BUY 2%nat 3 333]
                [mkSnapshot 1%nat 1000; mkSnapshot 2%nat 1000]
                true 3 (Some 2%nat)) /\
  Qfloor (1000 / Close rising_row) = 333%Z.
Proof. repeat split. Qed.

(** ** C5: one snapshot per row *)

Lemma step_recorded (s s' : sim) (row : SigRow) :
  step s row = Ok s' -> portfolio_values s' = recorded s row.
Proof.
  unfold step, recorded.
  destruct (position_is row 2 && negb (in_position s)).
  - destruct (floor_div (capital s) (Close row)) as [n|]; [|discriminate].
    destruct (n >? 0)%Z; intros H; inversion H; reflexivity.
  - destruct (position_is row (-2) && in_position s);
      intros H; inversion H; reflexivity.
Qed.

(** The loop only ever appends to the snapshot list. *)
Lemma run_extends (rows : list SigRow) (s s' : sim) :
  run s rows = Ok s' ->
  exists tail, portfolio_values s' = portfolio_values s ++ tail /\
               length tail = length rows.
Proof.
  revert s. induction rows as [|row rows IH]; intros s H.
  - inversion H. exists []. rewrite app_nil_r. auto.
  - simpl in H. destruct (step s row) as [s1| |] eqn:E; try discriminate.
    apply IH in H. destruct H as [tail [Ht Hl]].
    apply step_recorded in E. rewrite E in Ht. unfold recorded in Ht.
    rewrite <- app_assoc in Ht. eexists. split; [exact Ht|].
    simpl. rewrite Hl. reflexivity.
Qed.

Lemma run_snapshots (rows : list SigRow) (s s' : sim) :
  run s rows = Ok s' ->
  forall k row, nth_error rows k = Some row ->
  exists sk sk',
    run s (firstn k rows) = Ok sk /\ step sk row = Ok sk' /\
    nth_error (portfolio_values s') (length (portfolio_values s) + k) =
      Some (mkSnapshot (Date_ row) (mark_to_market sk (Close row))).
Proof.
  revert s. induction rows as [|r rows IH]; intros s H k row Hk.
  - destruct k; discriminate.
  - simpl in H. destruct (step s r) as [s1| |] eqn:E; try discriminate.
    destruct k as [|k].
    + simpl in Hk. inversion Hk; subst row.
      exists s, s1. split; [reflexivity|]. split; [exact E|].
      apply run_extends in H. destruct H as [tail [Ht _]].
      apply step_recorded in E. rewrite Ht, E. unfold recorded.
      rewrite <- app_assoc. rewrite Nat.add_0_r.
      rewrite nth_error_app2 by lia. rewrite Nat.sub_diag. reflexivity.
    + simpl in Hk. destruct (IH s1 H k row Hk) as [sk [sk' [Hr [Hs Hn]]]].
      exists sk, sk'. split; [simpl; rewrite E; exact Hr|].
      split; [exact Hs|].
      apply step_recorded in E. rewrite E in Hn. unfold recorded in Hn.
      rewrite length_app in Hn. simpl in Hn.
      replace (length (portfolio_values s) + S k)%nat
        with (length (portfolio_values s) + 1 + k)%nat by lia.
      exact Hn.
Qed.

(** A transition at the day's close does not change the value of the
    holdings at that close, as long as the invariant holds. *)
Lemma step_keeps_value (s s' : sim) (row : SigRow) :
  state_ok s -> 0 < Close row -> step s row = Ok s' ->
  mark_to_market s (Close row) == mark_to_market s' (Close row).
Proof.
  intros [Hc Hs Hp Hb Hl] Hpr. unfold step, mark_to_market.
  destruct (position_is row 2 && negb (in_position s)) eqn:Ebuy.
  - apply andb_true_iff in Ebuy. destruct Ebuy as [_ Eflat].
    apply negb_true_iff in Eflat.
    assert (Hsh : shares s = 0%Z).
    { destruct (Z.eq_dec (shares s) 0) as [E|E]; [exact E|].
      assert (in_position s = true) by (apply Hp; lia). congruence. }
    rewrite floor_div_nonzero by (intro E; rewrite E in Hpr; inversion Hpr).
    pose proof (floor_nonneg _ _ Hc Hpr) as Hn.
    remember (Qfloor (capital s / Close row)) as n eqn:Hdef. clear Hdef.
    destruct (n >? 0)%Z eqn:En;
      intros H; injection H as <-; proj_simpl; rewrite Hsh.
    + ring.
    + rewrite Z.gtb_ltb, Z.ltb_ge in En.
      replace n with 0%Z by lia. reflexivity.
  - destruct (position_is row (-2) && in_position s);
      intros H; injection H as <-; proj_simpl; ring.
Qed.

(** C5 (as the code has it).  When [simulate_trades] returns, it has
    recorded exactly one snapshot per filtered row, in order; the
    snapshot of a row carries the row's date and the value
    [cash + shares * close] of the state in which the row is visited, that
    is before that day's transition.  For a non-negative initial capital
    and positive closes this is also the value, at the same close, of the
    state after that day's transition. *)
Theorem snapshot_per_row (df : list SigRow) (initial_capital : Q) (res : results) :
  simulate_trades df initial_capital = Ok res ->
  length (res_portfolio_df res) = length (dropna df) /\
  forall k row, nth_error (dropna df) k = Some row ->
    exists s s',
      run (init_sim initial_capital) (firstn k (dropna df)) = Ok s /\
      step s row = Ok s' /\
      nth_error (res_portfolio_df res) k =
        Some (mkSnapshot (Date_ row) (mark_to_market s (Close row))) /\
      (0 <= initial_capital -> Forall positive_close (dropna df) ->
       mark_to_market s (Close row) == mark_to_market s' (Close row)).
Proof.
  unfold simulate_trades. intros H.
  destruct (run (init_sim initial_capital) (dropna df)) as [sf| |] eqn:Erun;
    try discriminate.
  destruct (iloc_last (dropna df)) as [last| |]; try discriminate.
  inversion H; subst res; clear H. cbn [res_portfolio_df].
  split.
  - destruct (run_extends _ _ _ Erun) as [tail [Ht Hl]].
    rewrite Ht. simpl. exact Hl.
  - intros k row Hk.
    destruct (run_snapshots _ _ _ Erun k row Hk) as [s [s' [Hr [Hs Hn]]]].
    exists s, s'. repeat split; auto.
    intros Hcap Hpos.
    destruct (run_ok (firstn k (dropna df)) (init_sim initial_capital))
      as [s0 [Hr0 Hok]].
    + apply init_sim_ok. exact Hcap.
    + apply Forall_prefix. exact Hpos.
    + rewrite Hr in Hr0. inversion Hr0; subst s0.
      apply step_keeps_value; auto.
      rewrite Forall_forall in Hpos. apply Hpos.
      eapply nth_error_In. exact Hk.
Qed.

Lemma snapshot_per_row_witness :
  exists res,
    simulate_trades (signals_of_prices rising_prices 1 2) 1000 = Ok res /\
    length (res_portfolio_df res) = 2%nat /\
    nth_error (res_portfolio_df res) 1 =
      Some (mkSnapshot 2%nat (mark_to_market (visited_once 1000) 3)).
Proof.
  eexists. split; [reflexivity|].
  destruct (snapshot_per_row (signals_of_prices rising_prices 1 2) 1000 _ eq_refl)
    as [Hlen Hrows].
  split; [exact Hlen|].
  destruct (Hrows 1%nat rising_row eq_refl) as [s [s' [Hr [_ [Hn _]]]]].
  injection Hr as <-. exact Hn.
Defined.

(** C5 fails as stated where the invariant is broken.  On [swing_prices]
    with windows 1 and 2 and an initial capital of 1000, the row of day 2
    (close [-3], [Position == 2]) leaves a share count of [-334] without
    opening a position; the row of day 4 (close [2], [Position == 2]) then
    buys 500 shares.  The snapshot of day 4 is [1000 + (-334) * 2 = 332],
    the value before the BUY, while the state after the BUY holds no cash
    and 500 shares, worth [1000] at that close. *)
Lemma snapshot_after_transition_counterexample :
  map Close (dropna (signals_of_prices swing_prices 1 2)) = [-5; -3; -4; 2] /\
  map Position (dropna (signals_of_prices swing_prices 1 2)) =
    [Some (-1)%Z; Some 2%Z; Some (-2)%Z; Some 2%Z] /\
  nth_error (dropna (signals_of_prices swing_prices 1 2)) 3 = Some swing_row /\
  run (init_sim 1000) (firstn 3 (dropna (signals_of_prices swing_prices 1 2)))
    = Ok before_swing_buy /\
  step before_swing_buy swing_row = Ok after_swing_buy /\
  simulate_trades (signals_of_prices swing_prices 1 2) 1000 =
    Ok (mkResults (trades after_swing_buy) (portfolio_values after_swing_buy)
          1000 1000 500 0 true 0 (Fin (0 # 2))) /\
  nth_error (portfolio_values after_swing_buy) 3 = Some (mkSnapshot 4%nat 332) /\
  mark_to_market after_swing_buy (Close swing_row) == 1000 /\
  ~ 332 == mark_to_market after_swing_buy (Close swing_row).
Proof.
  repeat split. intros H. discriminate H.
Qed.

(** The same disagreement without any transition: with an initial
    capital of [-5] on [rising_prices], the snapshot of the third day is
    [-5], while the state after that day holds cash [-5] and a share
    count of [-2], worth [-11] at the day's close of [3]. *)
Example snapshot_negative_capital :
  run (init_sim (-5)) (firstn 2 (dropna (signals_of_prices rising_prices 1 2)))
    = Ok (mkSim (-5) (-2) [] (recorded (visited_once (-5)) rising_row)
                false 0 None) /\
  nth_error (recorded (visited_once (-5)) rising_row) 1 =
    Some (mkSnapshot 2%nat (-5 + inject_Z 0 * 3)) /\
  -5 + inject_Z 0 * 3 == -5 /\
  mark_to_market
    (mkSim (-5) (-2) [] (recorded (visited_once (-5)) rising_row) false 0 None)
    (Close rising_row) == -11.
Proof.
  repeat split.
Qed.

(** ** C6: maximum drawdown *)

Lemma list_as_nth_map {A : Type} (l : list A) (d : A) :
  l = map (fun t => nth t l d) (seq 0 (length l)).
Proof.
  induction l as [|a l IH]; [reflexivity|].
  simpl. f_equal. rewrite <- seq_shift, map_map. exact IH.
Qed.

Lemma combine_map_seq {A B : Type} (f : nat -> A) (g : nat -> B) (l : list nat) :
  combine (map f l) (map g l) = map (fun t => (f t, g t)) l.
Proof.
  induction l as [|a l IH]; [reflexivity|]. simpl. f_equal. exact IH.
Qed.

Lemma cummax_from_spec (vs : list Q) (peak : Q) :
  cummax_from peak vs =
  map (fun t => fold_left Qmax (firstn (S t) vs) peak) (seq 0 (length vs)).
Proof.
  revert peak. induction vs as [|v vs IH]; intros peak; [reflexivity|].
  simpl. f_equal. rewrite <- seq_shift, map_map. apply IH.
Qed.

(** The running maximum of the program is the peak of the specification. *)
Lemma cummax_spec (vs : list Q) :
  cummax vs = map (spec_peak vs) (seq 0 (length vs)).
Proof.
  destruct vs as [|v vs]; [reflexivity|].
  unfold cummax. rewrite cummax_from_spec.
  simpl. f_equal. rewrite <- seq_shift, map_map. reflexivity.
Qed.

Lemma drawdown_column_spec (vs : list Q) :
  map (fun '(v, p) => drawdown_cell v p) (combine vs (cummax vs)) =
  map (spec_drawdown_cell vs) (seq 0 (length vs)).
Proof.
  rewrite cummax_spec.
  rewrite (list_as_nth_map vs 0) at 1.
  rewrite combine_map_seq, map_map. reflexivity.
Qed.

Lemma drawdown_cell_finite (vs : list Q) (t : nat) :
  ~ spec_peak vs t == 0 -> spec_drawdown_cell vs t = Fin (spec_drawdown vs t).
Proof.
  intros H. unfold spec_drawdown_cell, drawdown_cell, spec_drawdown.
  rewrite true_div_nonzero by exact H. reflexivity.
Qed.

Lemma fold_num_min_fin (qs : list Q) (q : Q) :
  fold_left num_min (map Fin qs) (Fin q) = Fin (fold_left Qmin qs q).
Proof.
  revert q. induction qs as [|x qs IH]; intros q; [reflexivity|].
  simpl. apply IH.
Qed.

Lemma fold_Qmin_le_init (qs : list Q) (q : Q) : fold_left Qmin qs q <= q.
Proof.
  revert q. induction qs as [|x qs IH]; intros q; simpl.
  - apply Qle_refl.
  - eapply Qle_trans; [apply IH | apply Q.le_min_l].
Qed.

Lemma fold_Qmin_lower (qs : list Q) (q x : Q) :
  In x qs -> fold_left Qmin qs q <= x.
Proof.
  revert q. induction qs as [|y qs IH]; intros q H; [contradiction|].
  simpl. destruct H as [H|H].
  - subst y. eapply Qle_trans; [apply fold_Qmin_le_init | apply Q.le_min_r].
  - apply IH. exact H.
Qed.

Lemma fold_Qmin_attained (qs : list Q) (q : Q) :
  fold_left Qmin qs q == q \/ exists x, In x qs /\ fold_left Qmin qs q == x.
Proof.
  revert q. induction qs as [|y qs IH]; intros q; simpl.
  - left. reflexivity.
  - destruct (IH (Qmin q y)) as [H|[x [Hx H]]].
    + destruct (Q.min_spec q y) as [[_ E]|[_ E]].
      * left. rewrite H. exact E.
      * right. exists y. split; [auto|]. rewrite H. exact E.
    + right. exists x. auto.
Qed.

(** [Series.min()] on a non-empty column of finite cells is their minimum. *)
Lemma series_min_finite (q : Q) (qs : list Q) :
  exists m, series_min (map Fin (q :: qs)) = Fin m /\
            (forall x, In x (q :: qs) -> m <= x) /\
            (exists x, In x (q :: qs) /\ m == x).
Proof.
  exists (fold_left Qmin qs q). split.
  - unfold series_min. simpl. apply fold_num_min_fin.
  - split.
    + intros x [H|H]; [subst x; apply fold_Qmin_le_init | apply fold_Qmin_lower; exact H].
    + destruct (fold_Qmin_attained qs q) as [H|[x [Hx H]]].
      * exists q. split; [left; reflexivity | exact H].
      * exists x. split; [right; exact Hx | exact H].
Qed.

Lemma fold_Qmax_ge_init (qs : list Q) (q : Q) : q <= fold_left Qmax qs q.
Proof.
  revert q. induction qs as [|x qs IH]; intros q; simpl.
  - apply Qle_refl.
  - eapply Qle_trans; [apply Q.le_max_l | apply IH].
Qed.

Lemma spec_peak_0 (v : Q) (vs : list Q) : spec_peak (v :: vs) 0 = v.
Proof. reflexivity. Qed.

Lemma spec_peak_ge_first (v : Q) (vs : list Q) (t : nat) :
  v <= spec_peak (v :: vs) t.
Proof.
  unfold spec_peak. simpl. apply fold_Qmax_ge_init.
Qed.

Lemma max_drawdown_nonempty (res : results) :
  res_portfolio_df res <> [] ->
  max_drawdown (calculate_metrics res) =
  series_min (map (spec_drawdown_cell (map Value (res_portfolio_df res)))
                  (seq 0 (length (map Value (res_portfolio_df res))))).
Proof.
  intros H. unfold calculate_metrics. cbn [max_drawdown].
  destruct (res_portfolio_df res) as [|sn pdf]; [contradiction|].
  rewrite drawdown_column_spec. reflexivity.
Qed.

Lemma series_min_of_drawdowns (vs : list Q) :
  vs <> [] ->
  (forall t, (t < length vs)%nat -> ~ spec_peak vs t == 0) ->
  exists m,
    series_min (map (spec_drawdown_cell vs) (seq 0 (length vs))) = Fin m /\
    (forall t, (t < length vs)%nat -> m <= spec_drawdown vs t) /\
    (exists t, (t < length vs)%nat /\ m == spec_drawdown vs t).
Proof.
  intros Hne Hpk.
  assert (E : map (spec_drawdown_cell vs) (seq 0 (length vs)) =
              map Fin (map (spec_drawdown vs) (seq 0 (length vs)))).
  { rewrite map_map. apply map_ext_in. intros t Ht. apply in_seq in Ht.
    apply drawdown_cell_finite. apply Hpk. lia. }
  rewrite E. clear E.
  destruct vs as [|v vs]; [contradiction|].
  remember (v :: vs) as l eqn:El.
  assert (Hlen : length l = S (length vs)) by (subst l; reflexivity).
  rewrite Hlen. cbn [seq map].
  destruct (series_min_finite (spec_drawdown l 0)
              (map (spec_drawdown l) (seq 1 (length vs)))) as [m [Hm [Hlow Hatt]]].
  exists m. split; [exact Hm|]. split.
  - intros t Ht. apply Hlow.
    change (In (spec_drawdown l t) (map (spec_drawdown l) (seq 0 (S (length vs))))).
    apply in_map. apply in_seq. lia.
  - destruct Hatt as [x [Hx Hmx]].
    change (In x (map (spec_drawdown l) (seq 0 (S (length vs))))) in Hx.
    apply in_map_iff in Hx. destruct Hx as [t [Ht Hin]].
    apply in_seq in Hin. exists t. split; [lia|]. rewrite Ht. exact Hmx.
Qed.

Lemma positive_peaks (vs : list Q) (t : nat) :
  Forall (fun v => 0 < v) vs -> (t < length vs)%nat -> 0 < spec_peak vs t.
Proof.
  intros Hpos Ht. destruct vs as [|v vs]; [simpl in Ht; lia|].
  inversion Hpos as [|? ? Hv _]; subst.
  eapply Qlt_le_trans; [exact Hv | apply spec_peak_ge_first].
Qed.

(** C6.  The maximum drawdown is [0] on an empty trajectory.  On a
    non-empty one it is the minimum, as [Series.min()] takes it, of the
    cells [(value(t) - peak(t)) / peak(t) * 100] where [peak(t)] is the
    maximum of the values up to day [t]; when no peak is zero this is a
    finite number, a lower bound of all the drawdowns and one of them.
    When all values are positive it is at most [0]. *)
Theorem max_drawdown_is_minimum (res : results) :
  let vs := map Value (res_portfolio_df res) in
  let md := max_drawdown (calculate_metrics res) in
  (vs = [] -> md = Fin 0) /\
  (vs <> [] ->
     md = series_min (map (spec_drawdown_cell vs) (seq 0 (length vs)))) /\
  (vs <> [] ->
   (forall t, (t < length vs)%nat -> ~ spec_peak vs t == 0) ->
     exists m, md = Fin m /\
       (forall t, (t < length vs)%nat -> m <= spec_drawdown vs t) /\
       (exists t, (t < length vs)%nat /\ m == spec_drawdown vs t)) /\
  (vs <> [] -> Forall (fun v => 0 < v) vs ->
     exists m, md = Fin m /\ m <= 0 /\
       (forall t, (t < length vs)%nat -> m <= spec_drawdown vs t) /\
       (exists t, (t < length vs)%nat /\ m == spec_drawdown vs t)).
Proof.
  intros vs md.
  assert (Hne : vs <> [] -> res_portfolio_df res <> []).
  { intros H E. apply H. unfold vs. rewrite E. reflexivity. }
  assert (Hfin : vs <> [] ->
            (forall t, (t < length vs)%nat -> ~ spec_peak vs t == 0) ->
            exists m, md = Fin m /\
              (forall t, (t < length vs)%nat -> m <= spec_drawdown vs t) /\
              (exists t, (t < length vs)%nat /\ m == spec_drawdown vs t)).
  { intros H Hpk. unfold md. rewrite (max_drawdown_nonempty res (Hne H)).
    apply series_min_of_drawdowns; assumption. }
  split; [|split; [|split]].
  - intros H. unfold md, calculate_metrics. cbn [max_drawdown].
    destruct (res_portfolio_df res); [reflexivity | discriminate H].
  - intros H. apply max_drawdown_nonempty. apply Hne. exact H.
  - exact Hfin.
  - intros H Hpos.
    destruct (Hfin H) as [m [Hm [Hlow Hatt]]].
    { intros t Ht E. pose proof (positive_peaks vs t Hpos Ht) as Hp.
      rewrite E in Hp. inversion Hp. }
    exists m. split; [exact Hm|]. split; [|split; assumption].
    destruct vs as [|v rest] eqn:Evs; [contradiction|].
    eapply Qle_trans; [apply (Hlow 0%nat); simpl; lia|].
    unfold spec_drawdown. rewrite spec_peak_0. simpl nth.
    inversion Hpos as [|? ? Hv _]; subst.
    assert (Hz : (v - v) / v * 100 == 0)
      by (field; intro E; rewrite E in Hv; inversion Hv).
    rewrite Hz. apply Qle_refl.
Qed.

Lemma max_drawdown_is_minimum_witness :
  exists m, max_drawdown (calculate_metrics sample_results) = Fin m /\ m <= 0.
Proof.
  destruct (max_drawdown_is_minimum sample_results) as (_ & _ & _ & H).
  destruct H as [m [Hm [Hle _]]].
  - discriminate.
  - repeat constructor.
  - exists m. split; [exact Hm | exact Hle].
Defined.

(** ** C7: number of trades and win rate *)

Lemma length_filter_count {A : Type} (p : A -> bool) (l : list A) :
  length (filter p l) = count_if p l.
Proof.
  induction l as [|x l IH]; [reflexivity|].
  simpl. destruct (p x); simpl; rewrite IH; reflexivity.
Qed.

Lemma filter_filter_count {A : Type} (p q : A -> bool) (l : list A) :
  length (filter q (filter p l)) = count_if (fun x => p x && q x) l.
Proof.
  induction l as [|x l IH]; [reflexivity|].
  simpl. destruct (p x); simpl; [destruct (q x); simpl|]; rewrite IH; reflexivity.
Qed.

Lemma count_if_and_le {A : Type} (p q : A -> bool) (l : list A) :
  (count_if (fun x => p x && q x) l <= count_if p l)%nat.
Proof.
  induction l as [|x l IH]; [apply Nat.le_refl|].
  simpl. destruct (p x), (q x); simpl; lia.
Qed.

Lemma ratio_percent_bounds (w n : nat) :
  (w <= n)%nat -> (0 < n)%nat ->
  0 <= inject_Z (Z.of_nat w) / inject_Z (Z.of_nat n) * 100 <= 100.
Proof.
  intros Hwn Hn.
  assert (Hn' : 0 < inject_Z (Z.of_nat n)).
  { change 0 with (inject_Z 0). rewrite <- Zlt_Qlt. lia. }
  assert (Hw' : 0 <= inject_Z (Z.of_nat w)).
  { change 0 with (inject_Z 0). rewrite <- Zle_Qle. lia. }
  assert (Hwn' : inject_Z (Z.of_nat w) <= inject_Z (Z.of_nat n)).
  { rewrite <- Zle_Qle. lia. }
  assert (H0 : 0 <= inject_Z (Z.of_nat w) / inject_Z (Z.of_nat n)).
  { apply Qle_shift_div_l; [exact Hn'|]. rewrite Qmult_0_l. exact Hw'. }
  assert (H1 : inject_Z (Z.of_nat w) / inject_Z (Z.of_nat n) <= 1).
  { apply Qle_shift_div_r; [exact Hn'|]. rewrite Qmult_1_l. exact Hwn'. }
  split; lra.
Qed.

Lemma count_if_ext {A : Type} (p q : A -> bool) (l : list A) :
  (forall x, p x = q x) -> count_if p l = count_if q l.
Proof.
  intros H. induction l as [|x l IH]; [reflexivity|].
  simpl. rewrite H, IH. reflexivity.
Qed.

Lemma sell_with_gain_iff (t : trade) :
  sell_with_gain t = true <->
  exists date price n profit profit_pct,
    t = SELL date price n profit profit_pct /\ 0 < profit.
Proof.
  destruct t as [d p n|d p n profit pct]; simpl.
  - split; [discriminate|]. intros (? & ? & ? & ? & ? & E & _). discriminate.
  - destruct (Qlt_le_dec 0 profit) as [Hlt|Hle]; split.
    + intros _. exists d, p, n, profit, pct. split; [reflexivity | exact Hlt].
    + reflexivity.
    + discriminate.
    + intros (? & ? & ? & profit' & ? & E & Hlt). injection E as <- <- <- <- <-.
      exfalso. apply (Qlt_irrefl 0). eapply Qlt_le_trans; eassumption.
Qed.

(** The test [t["Profit"] > 0] on the SELL entries is the test "profit
    above zero". *)
Lemma is_winning_gain (t : trade) :
  is_sell t && is_winning t = sell_with_gain t.
Proof.
  destruct t as [d p n|d p n profit pct]; simpl; [reflexivity|].
  destruct (Qlt_le_dec 0 profit) as [Hlt|Hle].
  - destruct (Qle_bool profit 0) eqn:E; [|reflexivity].
    apply Qle_bool_iff in E. exfalso.
    apply (Qlt_irrefl 0). eapply Qlt_le_trans; eassumption.
  - apply Qle_bool_iff in Hle. rewrite Hle. reflexivity.
Qed.

(** C7.  [num_trades] is the number of SELL entries of the trade log (a
    BUY never counts).  [win_rate] is the number of SELL entries whose
    profit is above zero ([0 < profit]; a SELL at a profit of zero or at a
    loss is not a win) divided by [num_trades], times 100, when there is
    a SELL, and [0] otherwise; it always lies between 0 and 100. *)
Theorem win_rate_spec (res : results) :
  let m := calculate_metrics res in
  let sells := count_if is_sell (res_trades res) in
  let wins := count_if sell_with_gain (res_trades res) in
  (forall t, sell_with_gain t = true <->
             exists date price n profit profit_pct,
               t = SELL date price n profit profit_pct /\ 0 < profit) /\
  num_trades m = sells /\
  win_rate m =
    (if (0 <? sells)%nat
     then inject_Z (Z.of_nat wins) / inject_Z (Z.of_nat sells) * 100
     else 0) /\
  (sells = 0%nat -> win_rate m = 0) /\
  0 <= win_rate m <= 100.
Proof.
  intros m sells wins.
  split; [exact sell_with_gain_iff|].
  assert (Hn : num_trades m = sells).
  { unfold m, calculate_metrics. cbn [num_trades]. apply length_filter_count. }
  assert (Hw : win_rate m =
               if (0 <? sells)%nat
               then inject_Z (Z.of_nat wins) / inject_Z (Z.of_nat sells) * 100
               else 0).
  { unfold m, calculate_metrics. cbn [win_rate].
    rewrite filter_filter_count, length_filter_count.
    rewrite (count_if_ext _ _ _ is_winning_gain). reflexivity. }
  split; [exact Hn|]. split; [exact Hw|].
  rewrite Hw. destruct (0 <? sells)%nat eqn:E.
  - apply Nat.ltb_lt in E. split; [intros H0; lia|].
    apply ratio_percent_bounds; [|exact E].
    unfold wins. rewrite <- (count_if_ext _ _ _ is_winning_gain).
    apply count_if_and_le.
  - split; [reflexivity|]. split; discriminate.
Qed.

Lemma win_rate_spec_witness :
  count_if is_sell (res_trades sample_results) = 2%nat /\
  count_if sell_with_gain (res_trades sample_results) = 1%nat /\
  num_trades (calculate_metrics sample_results) = 2%nat /\
  win_rate (calculate_metrics sample_results) =
    inject_Z (Z.of_nat 1) / inject_Z (Z.of_nat 2) * 100 /\
  0 <= win_rate (calculate_metrics sample_results) <= 100.
Proof.
  split; [reflexivity|]. split; [reflexivity|].
  destruct (win_rate_spec sample_results) as (_ & Hn & Hw & _ & Hb).
  split; [exact Hn|]. split; [exact Hw | exact Hb].
Defined.

(** A BUY entry does not change the count, a SELL entry adds one. *)
Lemma num_trades_counts_sells_only (t : trade) (l : list trade) :
  count_if is_sell (t :: l) =
  match t with
  | BUY _ _ _ => count_if is_sell l
  | SELL _ _ _ _ _ => S (count_if is_sell l)
  end.
Proof. destruct t; reflexivity. Qed.

Example win_rate_sample :
  num_trades (calculate_metrics sample_results) = 2%nat /\
  win_rate (calculate_metrics sample_results) == 50.
Proof. split; reflexivity. Qed.

(** ** C8: non-positive close on a BUY row *)

Lemma floor_nonpos (c p : Q) : 0 <= c -> p < 0 -> (Qfloor (c / p) <= 0)%Z.
Proof.
  intros Hc Hp.
  assert (Hq : 0 <= c / - p).
  { apply Qle_shift_div_l; [lra|]. rewrite Qmult_0_l. exact Hc. }
  assert (E : c / p == - (c / - p)).
  { field. intro E; rewrite E in Hp; inversion Hp. }
  assert (H : inject_Z (Qfloor (c / p)) <= inject_Z 0).
  { eapply Qle_trans; [apply Qfloor_le|]. rewrite E. change (inject_Z 0) with 0. lra. }
  rewrite <- Zle_Qle in H. exact H.
Qed.

(** *** The finite loop within the loop on doubles *)

Ltac xproj_simpl :=
  cbn [x_capital x_shares x_trades x_portfolio_values x_in_position
       x_entry_price x_entry_date].

Lemma xgt0_shares (n : Z) : xgt0 (Fin (inject_Z n)) = (n >? 0)%Z.
Proof.
  unfold xgt0. destruct (n >? 0)%Z eqn:E.
  - apply Z.gtb_lt in E.
    destruct (Qle_bool (inject_Z n) 0) eqn:E'; [|reflexivity].
    apply Qle_bool_iff in E'. change 0 with (inject_Z 0) in E'.
    rewrite <- Zle_Qle in E'. lia.
  - rewrite Z.gtb_ltb, Z.ltb_ge in E.
    assert (H : Qle_bool (inject_Z n) 0 = true).
    { apply Qle_bool_iff. change 0 with (inject_Z 0).
      rewrite <- Zle_Qle. exact E. }
    rewrite H. reflexivity.
Qed.

(** An iteration that stays finite is the iteration on doubles. *)
Lemma step_finite (s s' : sim) (row : SigRow) :
  step s row = Ok s' -> xstep (finite_sim s) row = finite_sim s'.
Proof.
  unfold step, xstep.
  cbn [finite_sim x_capital x_shares x_trades x_portfolio_values
       x_in_position x_entry_price x_entry_date].
  destruct (position_is row 2 && negb (in_position s)).
  - unfold xfloor_div.
    destruct (floor_div (capital s) (Close row)) as [n|]; [|discriminate].
    rewrite xgt0_shares.
    destruct (n >? 0)%Z; intros H; injection H as <-;
      unfold finite_sim; proj_simpl; rewrite ?map_app; reflexivity.
  - destruct (position_is row (-2) && in_position s);
      intros H; injection H as <-;
      unfold finite_sim; proj_simpl; rewrite ?map_app; reflexivity.
Qed.


Lemma step_nonfinite_iff (s : sim) (row : SigRow) :
  step s row = NonFinite <->
  position_is row 2 = true /\ in_position s = false /\ Close row == 0.
Proof.
  unfold step, floor_div. split.
  - destruct (position_is row 2) eqn:Erow; cbn [andb].
    + destruct (in_position s) eqn:Epos; cbn [negb].
      * destruct (position_is row (-2) && true); discriminate.
      * destruct (Qeq_bool (Close row) 0) eqn:E.
        -- intros _. apply Qeq_bool_iff in E. auto.
        -- destruct (Qfloor (capital s / Close row) >? 0)%Z; discriminate.
    + destruct (position_is row (-2) && in_position s); discriminate.
  - intros (Hrow & Hpos & Hp). rewrite Hrow, Hpos. cbn [andb negb].
    apply Qeq_bool_iff in Hp. rewrite Hp. reflexivity.
Qed.

Lemma run_finite (rows : list SigRow) (s s' : sim) :
  run s rows = Ok s' -> xrun (finite_sim s) rows = finite_sim s'.
Proof.
  revert s. induction rows as [|row rows IH]; intros s H.
  - simpl in H. injection H as <-. reflexivity.
  - simpl in H. destruct (step s row) as [s1| |] eqn:E; try discriminate.
    simpl. rewrite (step_finite _ _ _ E). apply IH. exact H.
Qed.

(** Every finite result of [simulate_trades] is the result on doubles. *)
Lemma simulate_trades_finite (df : list SigRow) (initial_capital : Q)
    (res : results) :
  simulate_trades df initial_capital = Ok res ->
  xsimulate_trades df initial_capital = Ok (finite_results res).
Proof.
  unfold simulate_trades, xsimulate_trades.
  destruct (run (init_sim initial_capital) (dropna df)) as [s| |] eqn:E;
    try discriminate.
  change (init_xsim initial_capital) with (finite_sim (init_sim initial_capital)).
  rewrite (run_finite _ _ _ E).
  destruct (iloc_last (dropna df)) as [last| |]; try discriminate.
  intros H. injection H as <-.
  unfold finite_sim, finite_results. xproj_simpl.
  cbn [res_trades res_portfolio_df res_final_value res_initial_capital
       res_shares_held res_cash res_in_position res_unrealized_profit
       res_unrealized_pct].
  destruct (in_position s); reflexivity.
Qed.

(** The finite share count of a BUY attempt at a negative close, with a
    non-negative cash: no trade. *)
Lemma negative_close_finite (s : sim) (row : SigRow) :
  in_position s = false ->
  position_is row 2 = true ->
  Close row < 0 ->
  0 <= capital s ->
  step s row =
    Ok (mkSim (capital s) (Qfloor (capital s / Close row)) (trades s)
              (recorded s row) false (entry_price s) (entry_date s)).
Proof.
  intros Hpos Hrow Hp Hc.
  pose proof (floor_nonpos _ _ Hc Hp) as Hn.
  unfold step, recorded. rewrite Hrow, Hpos. cbn [andb negb].
  rewrite floor_div_nonzero by (intro E; rewrite E in Hp; inversion Hp).
  destruct (Qfloor (capital s / Close row) >? 0)%Z eqn:E.
  - apply Z.gtb_lt in E. lia.
  - reflexivity.
Qed.

(** C8 (as the code has it).  A row with [Position == 2], visited while
    not in position, at a close of zero or below: the iteration raises
    nothing ([xstep] is the whole loop body, and it always has a next
    state).  At a negative close with a non-negative cash no trade is
    recorded, and cash, position flag, entry price and entry date are
    kept.  At a close of zero the floor division is evaluated without a
    guard: with a positive cash the share count is [inf], the test
    [shares > 0] passes, a BUY of [inf] shares is recorded, the cash
    becomes [nan] and a position is open; with a cash of zero or below
    the share count is [nan] or [-inf] and no trade is recorded. *)
Theorem nonpositive_close_buy_attempt (s : xsim) (row : SigRow) (cash : Q) :
  x_in_position s = false ->
  position_is row 2 = true ->
  Close row <= 0 ->
  x_capital s = Fin cash ->
  (Close row < 0 -> 0 <= cash ->
     x_trades (xstep s row) = x_trades s /\
     x_capital (xstep s row) = x_capital s /\
     x_in_position (xstep s row) = false /\
     x_entry_price (xstep s row) = x_entry_price s /\
     x_entry_date (xstep s row) = x_entry_date s) /\
  (Close row == 0 -> 0 < cash ->
     x_shares (xstep s row) = PInf /\
     x_trades (xstep s row) =
       x_trades s ++ [XBUY (Date_ row) (Close row) PInf] /\
     x_capital (xstep s row) = NaN /\
     x_in_position (xstep s row) = true /\
     x_entry_price (xstep s row) = Close row) /\
  (Close row == 0 -> cash <= 0 ->
     x_trades (xstep s row) = x_trades s /\
     x_capital (xstep s row) = x_capital s /\
     x_in_position (xstep s row) = false).
Proof.
  intros Hpos Hrow _ Hcash.
  unfold xstep. rewrite Hrow, Hpos, Hcash. cbn [andb negb xfloor_div].
  split; [|split].
  - intros Hp Hc.
    pose proof (floor_nonpos _ _ Hc Hp) as Hn.
    rewrite floor_div_nonzero by (intro E; rewrite E in Hp; inversion Hp).
    rewrite xgt0_shares.
    destruct (Qfloor (cash / Close row) >? 0)%Z eqn:E.
    + apply Z.gtb_lt in E. lia.
    + xproj_simpl. repeat split.
  - intros Hz Hc. apply Qeq_bool_iff in Hz.
    unfold floor_div, true_div, inf_times. rewrite Hz.
    assert (E0 : Qeq_bool cash 0 = false).
    { destruct (Qeq_bool cash 0) eqn:E; [|reflexivity].
      apply Qeq_bool_iff in E. rewrite E in Hc. inversion Hc. }
    assert (E1 : Qle_bool 0 cash = true).
    { apply Qle_bool_iff. apply Qlt_le_weak. exact Hc. }
    rewrite E0, E1. cbn [xgt0 xmul]. unfold inf_times. rewrite Hz.
    xproj_simpl. repeat split.
  - intros Hz Hc. apply Qeq_bool_iff in Hz.
    unfold floor_div, true_div. rewrite Hz.
    destruct (Qeq_bool cash 0) eqn:E0.
    + cbn [xgt0]. xproj_simpl. repeat split.
    + assert (E1 : Qle_bool 0 cash = false).
      { destruct (Qle_bool 0 cash) eqn:E; [|reflexivity].
        apply Qle_bool_iff in E. exfalso.
        assert (E' : cash == 0) by (apply Qle_antisym; assumption).
        apply Qeq_bool_iff in E'. congruence. }
      rewrite E1. cbn [xgt0]. xproj_simpl. repeat split.
Qed.

Lemma nonpositive_close_buy_attempt_witness :
  (x_in_position (finite_sim visited_negative) = false /\
   position_is negative_row 2 = true /\
   Close negative_row < 0 /\
   x_capital (finite_sim visited_negative) = Fin 1000 /\
   x_trades (xstep (finite_sim visited_negative) negative_row) = [] /\
   x_capital (xstep (finite_sim visited_negative) negative_row) = Fin 1000 /\
   x_in_position (xstep (finite_sim visited_negative) negative_row) = false) /\
  (x_in_position visited_zero = false /\
   position_is zero_row 2 = true /\
   Close zero_row == 0 /\
   x_capital visited_zero = Fin 1000 /\
   x_shares (xstep visited_zero zero_row) = PInf /\
   x_trades (xstep visited_zero zero_row) = [XBUY 2%nat 0 PInf] /\
   x_capital (xstep visited_zero zero_row) = NaN /\
   x_in_position (xstep visited_zero zero_row) = true).
Proof.
  assert (N3 : Close negative_row <= 0) by discriminate.
  assert (N3' : Close negative_row < 0) by reflexivity.
  assert (N5 : 0 <= 1000) by discriminate.
  assert (Z3 : Close zero_row <= 0) by discriminate.
  assert (Z3' : Close zero_row == 0) by reflexivity.
  assert (Z5 : 0 < 1000) by reflexivity.
  split.
  - destruct (nonpositive_close_buy_attempt (finite_sim visited_negative)
                negative_row 1000 eq_refl eq_refl N3 eq_refl) as [H _].
    destruct (H N3' N5) as (Ht & Hc & Hi & _).
    split; [reflexivity|]. split; [reflexivity|]. split; [exact N3'|].
    split; [reflexivity|]. split; [exact Ht|]. split; [exact Hc | exact Hi].
  - destruct (nonpositive_close_buy_attempt visited_zero zero_row 1000
                eq_refl eq_refl Z3 eq_refl) as [_ [H _]].
    destruct (H Z3' Z5) as (Hs & Ht & Hc & Hi & _).
    split; [reflexivity|]. split; [reflexivity|]. split; [exact Z3'|].
    split; [reflexivity|]. split; [exact Hs|]. split; [exact Ht|].
    split; [exact Hc | exact Hi].
Defined.

(** C8 fails as stated at a negative close: on the third day of
    [negative_prices] (close [-3], [Position == 2], not in position, cash
    1000) no trade is recorded, but the share count is overwritten with
    [floor (1000 / -3) = -334]; the state is changed, and the run ends
    with [shares_held = -334] and a final value of [2002] instead of
    [1000]. *)
Lemma negative_price_counterexample :
  nth_error (dropna (signals_of_prices negative_prices 1 2)) 1 = Some negative_row /\
  run (init_sim 1000) (firstn 1 (dropna (signals_of_prices negative_prices 1 2)))
    = Ok visited_negative /\
  in_position visited_negative = false /\
  Position negative_row = Some 2%Z /\
  Close negative_row < 0 /\
  step visited_negative negative_row =
    Ok (mkSim 1000 (-334) [] (recorded visited_negative negative_row)
              false 0 None) /\
  shares visited_negative = 0%Z /\
  state_of (mkSim 1000 (-334) [] (recorded visited_negative negative_row)
                  false 0 None) <> state_of visited_negative /\
  simulate_trades (signals_of_prices negative_prices 1 2) 1000 =
    Ok (mkResults [] (recorded visited_negative negative_row)
                  (1000 + inject_Z (-334) * -3) 1000 (-334) 1000 false 0 (Fin 0)) /\
  1000 + inject_Z (-334) * -3 == 2002.
Proof.
  repeat split. intros H. discriminate H.
Qed.

(** At a close of zero the iteration leaves the finite numbers. *)
Lemma zero_close_not_finite (s : sim) (row : SigRow) :
  in_position s = false ->
  position_is row 2 = true ->
  Close row == 0 ->
  step s row = NonFinite.
Proof.
  intros Hpos Hrow Hp. apply step_nonfinite_iff. auto.
Qed.

(** The run on [zero_prices] (windows 1 and 2, capital 1000): the close
    of zero on the third day carries a crossover.  The run returns, with
    a BUY of [inf] shares in the log and a cash of [nan]; the position is
    sold two days later. *)
Example zero_close_run :
  nth_error (dropna (signals_of_prices zero_prices 1 2)) 1 = Some zero_row /\
  xrun (init_xsim 1000) (firstn 1 (dropna (signals_of_prices zero_prices 1 2)))
    = visited_zero /\
  simulate_trades (signals_of_prices zero_prices 1 2) 1000 = NonFinite /\
  exists res,
    xsimulate_trades (signals_of_prices zero_prices 1 2) 1000 = Ok res /\
    xres_trades res =
      [XBUY 2%nat 0 PInf; XSELL 4%nat 4 PInf PInf PInf] /\
    xres_cash res = NaN /\
    xres_final_value res = NaN /\
    xres_in_position res = false.
Proof.
  split; [reflexivity|]. split; [reflexivity|]. split; [reflexivity|].
  eexists. split; [reflexivity|]. repeat split.
Qed.

(** ** C9: short window not smaller than the long window *)

Lemma in_combine_same {A : Type} (l : list A) (x y : A) :
  In (x, y) (combine l l) -> x = y.
Proof.
  induction l as [|a l IH]; intros H; [contradiction|].
  simpl in H. destruct H as [H|H]; [congruence | auto].
Qed.

(** With equal windows the two averages of a row are the same cell. *)
Lemma equal_windows_same_average (prices : list Bar) (w : nat) (m : MARow) :
  In m (calculate_moving_averages prices w w) ->
  ma_SMA_Short m = ma_SMA_Long m.
Proof.
  unfold calculate_moving_averages. intros H.
  apply in_map_iff in H. destruct H as [[b [s l]] [Hm Hin]].
  apply in_combine_r in Hin. apply in_combine_same in Hin.
  subst m. simpl. exact Hin.
Qed.

Lemma signal_of_same (x : option Q) :
  signal_of x x = 0%Z \/ signal_of x x = (-1)%Z.
Proof.
  destruct x as [q|]; [right | left; reflexivity].
  rewrite signal_of_defined.
  assert (E : Qle_bool q q = true) by (apply Qle_bool_iff; apply Qle_refl).
  rewrite E. reflexivity.
Qed.

Lemma diff_from_small (prev : Z) (xs : list Z) :
  (-1 <= prev <= 0)%Z ->
  Forall (fun x => (-1 <= x <= 0)%Z) xs ->
  Forall small_step (diff_from prev xs).
Proof.
  revert prev. induction xs as [|x xs IH]; intros prev Hp H; [constructor|].
  inversion H as [|? ? Hx Hxs]; subst. simpl. constructor.
  - simpl. lia.
  - apply IH; assumption.
Qed.

Lemma diff_small (xs : list Z) :
  Forall (fun x => (-1 <= x <= 0)%Z) xs -> Forall small_step (diff xs).
Proof.
  intros H. destruct xs as [|x xs]; [constructor|].
  inversion H; subst. simpl. constructor; [exact I|].
  apply diff_from_small; assumption.
Qed.

Lemma generate_signals_position (df : list MARow) (r : SigRow) :
  In r (generate_signals df) ->
  In (Position r)
     (diff (map (fun m => signal_of (ma_SMA_Short m) (ma_SMA_Long m)) df)).
Proof.
  unfold generate_signals. intros H.
  apply in_map_iff in H. destruct H as [[m [sg p]] [Hr Hin]].
  apply in_combine_r in Hin. apply in_combine_r in Hin.
  subst r. exact Hin.
Qed.

Lemma equal_windows_no_crossover (prices : list Bar) (w : nat) (r : SigRow) :
  In r (signals_of_prices prices w w) -> no_crossover r.
Proof.
  unfold signals_of_prices. intros H.
  apply generate_signals_position in H.
  assert (Hs : Forall small_step
            (diff (map (fun m => signal_of (ma_SMA_Short m) (ma_SMA_Long m))
                       (calculate_moving_averages prices w w)))).
  { apply diff_small. apply Forall_forall. intros x Hx.
    apply in_map_iff in Hx. destruct Hx as [m [Hm Hin]].
    apply equal_windows_same_average in Hin. rewrite Hin in Hm.
    destruct (signal_of_same (ma_SMA_Long m)) as [E|E]; rewrite E in Hm; lia. }
  rewrite Forall_forall in Hs. specialize (Hs _ H).
  unfold no_crossover. destruct (Position r) as [d|]; simpl in Hs.
  - split; intros E; inversion E; lia.
  - split; discriminate.
Qed.

Lemma no_crossover_position_is (r : SigRow) :
  no_crossover r -> position_is r 2 = false /\ position_is r (-2) = false.
Proof.
  intros [H1 H2]. split.
  - destruct (position_is r 2) eqn:E; [|reflexivity].
    apply position_is_true in E. contradiction.
  - destruct (position_is r (-2)) eqn:E; [|reflexivity].
    apply position_is_true in E. contradiction.
Qed.

(** Without a crossover row the loop only records snapshots. *)
Lemma run_without_crossover (rows : list SigRow) (s : sim) :
  Forall no_crossover rows ->
  exists s', run s rows = Ok s' /\
             trades s' = trades s /\ capital s' = capital s /\
             shares s' = shares s /\ in_position s' = in_position s.
Proof.
  revert s. induction rows as [|r rows IH]; intros s H.
  - exists s. repeat split.
  - inversion H as [|? ? Hr Hrows]; subst.
    apply no_crossover_position_is in Hr. destruct Hr as [E1 E2].
    simpl. unfold step. rewrite E1, E2. cbn [andb].
    destruct (IH (mkSim (capital s) (shares s) (trades s) (recorded s r)
                        (in_position s) (entry_price s) (entry_date s)) Hrows)
      as [s' [Hrun Hsame]].
    exists s'. split; [exact Hrun | exact Hsame].
Qed.

Lemma iloc_last_nonempty (df : list SigRow) :
  df <> [] -> exists r, iloc_last df = Ok r.
Proof.
  intros H. unfold iloc_last. destruct (rev df) as [|r l] eqn:E.
  - apply (f_equal (@rev SigRow)) in E. rewrite rev_involutive in E.
    simpl in E. contradiction.
  - exists r. reflexivity.
Qed.

(** C9 (as the code has it).  When the short window equals the long
    window, no row of the signal frame carries a crossover ([Position] is
    never [2] nor [-2]); whenever a row survives the filter, the simulator
    returns a run with an empty trade log, no open position and a final
    value equal to the initial capital. *)
Theorem equal_windows_no_trade (prices : list Bar) (w : nat) (initial_capital : Q) :
  (forall r, In r (signals_of_prices prices w w) -> no_crossover r) /\
  (dropna (signals_of_prices prices w w) <> [] ->
   exists res,
     simulate_trades (signals_of_prices prices w w) initial_capital = Ok res /\
     res_trades res = [] /\
     res_in_position res = false /\
     res_final_value res == initial_capital).
Proof.
  split; [intros r; apply equal_windows_no_crossover|].
  intros Hne.
  assert (Hrows : Forall no_crossover (dropna (signals_of_prices prices w w))).
  { apply Forall_forall. intros r Hr. unfold dropna in Hr.
    apply filter_In in Hr. eapply equal_windows_no_crossover. apply Hr. }
  destruct (run_without_crossover _ (init_sim initial_capital) Hrows)
    as [s [Hrun [Ht [Hc [Hs Hp]]]]].
  destruct (iloc_last_nonempty _ Hne) as [last Hlast].
  unfold simulate_trades. rewrite Hrun, Hlast.
  eexists. split; [reflexivity|]. cbn [res_trades res_in_position res_final_value].
  rewrite Ht, Hp, Hc, Hs. simpl trades. simpl in_position.
  repeat split. simpl. ring.
Qed.

Lemma equal_windows_no_trade_witness :
  dropna (signals_of_prices rising_prices 2 2) <> [] /\
  exists res,
    simulate_trades (signals_of_prices rising_prices 2 2) 1000 = Ok res /\
    res_trades res = [] /\
    res_in_position res = false /\
    res_final_value res == 1000.
Proof.
  assert (H : dropna (signals_of_prices rising_prices 2 2) <> []) by discriminate.
  split; [exact H|].
  exact (proj2 (equal_windows_no_trade rising_prices 2 1000) H).
Defined.

(** C9 fails as stated when the short window is larger than the long one:
    on [dip_prices] with windows 2 and 1 the third row carries a
    crossover ([Position == 2]) and the simulator buys 100 shares at 10. *)
Lemma inverted_windows_counterexample :
  (2 >= 1)%nat /\
  map Position (signals_of_prices dip_prices 2 1) =
    [None; Some (-1)%Z; Some 2%Z] /\
  simulate_trades (signals_of_prices dip_prices 2 1) 1000 =
    Ok (mkResults [BUY 2%nat 10 100]
          [mkSnapshot 1%nat (1000 + inject_Z 0 * 11);
           mkSnapshot 2%nat (1000 + inject_Z 0 * 10)]
          (1000 - inject_Z 100 * 10 + inject_Z 100 * 10) 1000 100
          (1000 - inject_Z 100 * 10) true
          ((10 - 10) * inject_Z 100) (Fin ((10 - 10) / 10 * 100))).
Proof.
  repeat split. lia.
Qed.

(** * Further properties of the pipeline *)

(** ** The indicator frame *)

Lemma combine_map_same {A B C : Type} (f : A -> B) (g : A -> C) (l : list A) :
  combine (map f l) (map g l) = map (fun t => (f t, g t)) l.
Proof.
  induction l as [|a l IH]; [reflexivity|]. simpl. f_equal. exact IH.
Qed.

Lemma rolling_mean_length (w : nat) (xs : list Q) :
  length (rolling_mean w xs) = length xs.
Proof. unfold rolling_mean. rewrite length_map, length_seq. reflexivity. Qed.

(** Row [i] of the indicator frame is [ma_row_at ... i]. *)
Lemma calculate_moving_averages_indexed (prices : list Bar) (sw lw : nat) :
  calculate_moving_averages prices sw lw =
  map (ma_row_at prices sw lw) (seq 0 (length prices)).
Proof.
  unfold calculate_moving_averages, rolling_mean.
  rewrite length_map.
  rewrite combine_map_same.
  pose proof (list_as_nth_map prices no_bar) as E.
  set (idx := seq 0 (length prices)) in *.
  set (cells := map _ idx).
  set (rows := map (ma_row_at prices sw lw) idx).
  rewrite E. unfold cells, rows.
  rewrite combine_map_same, map_map. reflexivity.
Qed.

(** X1.  [calculate_moving_averages] only adds columns: dropping the two
    averages from its result gives back the input frame, row for row. *)
Theorem moving_averages_keep_frame (df : list Bar) (short_window long_window : nat) :
  map (fun m => mkBar (ma_Date m) (ma_Close m))
      (calculate_moving_averages df short_window long_window) = df.
Proof.
  rewrite calculate_moving_averages_indexed, map_map.
  rewrite (list_as_nth_map df no_bar) at 2.
  apply map_ext. intros i. unfold ma_row_at. simpl.
  destruct (nth i df no_bar). reflexivity.
Qed.

Lemma Qsum_bounds (lo hi : Q) (l : list Q) :
  Forall (fun x => lo <= x <= hi) l ->
  inject_Z (Z.of_nat (length l)) * lo <= Qsum l <=
  inject_Z (Z.of_nat (length l)) * hi.
Proof.
  induction 1 as [|x l [Hlo Hhi] _ IH].
  - simpl. split; rewrite Qmult_0_l; apply Qle_refl.
  - cbn [length Qsum fold_right]. fold (Qsum l).
    rewrite Nat2Z.inj_succ. unfold Z.succ. rewrite inject_Z_plus.
    change (inject_Z 1) with 1. destruct IH as [IH1 IH2]. split; lra.
Qed.

Lemma in_window {A : Type} (w k : nat) (xs : list A) (x : A) :
  In x (firstn w (skipn k xs)) -> In x xs.
Proof.
  intros H.
  rewrite <- (firstn_skipn k xs). apply in_or_app. right.
  rewrite <- (firstn_skipn w (skipn k xs)). apply in_or_app. left. exact H.
Qed.

Lemma window_length (w i : nat) (xs : list Q) :
  (w <= i + 1)%nat -> (i < length xs)%nat ->
  length (firstn w (skipn (i + 1 - w) xs)) = w.
Proof.
  intros Hw Hi. rewrite length_firstn, length_skipn. lia.
Qed.

(** A defined rolling mean lies between any two bounds of the column. *)
Lemma rolling_mean_at_bounds (w i : nat) (xs : list Q) (lo hi q : Q) :
  Forall (fun x => lo <= x <= hi) xs ->
  (i < length xs)%nat ->
  rolling_mean_at w xs i = Some q ->
  lo <= q <= hi.
Proof.
  intros Hxs Hi. unfold rolling_mean_at.
  destruct (w =? 0)%nat eqn:E0; [discriminate|].
  destruct (i + 1 <? w)%nat eqn:E1; [discriminate|].
  apply Nat.eqb_neq in E0. apply Nat.ltb_ge in E1.
  cbn [orb]. intros H. injection H as <-.
  set (win := firstn w (skipn (i + 1 - w) xs)).
  assert (Hwin : Forall (fun x => lo <= x <= hi) win).
  { apply Forall_forall. intros x Hx. rewrite Forall_forall in Hxs.
    apply Hxs. eapply in_window. exact Hx. }
  apply Qsum_bounds in Hwin.
  assert (Hlen : length win = w) by (apply window_length; assumption).
  rewrite Hlen in Hwin.
  assert (Hpos : 0 < inject_Z (Z.of_nat w)).
  { change 0 with (inject_Z 0). rewrite <- Zlt_Qlt. lia. }
  destruct Hwin as [H1 H2]. split.
  - apply Qle_shift_div_l; [exact Hpos|]. rewrite Qmult_comm. exact H1.
  - apply Qle_shift_div_r; [exact Hpos|]. rewrite Qmult_comm. exact H2.
Qed.



(** ** The signal frame *)

Lemma diff_from_map_seq (s : nat -> Z) (j m : nat) :
  diff_from (s j) (map s (seq (S j) m)) =
  map (fun i => match i with
                | O => None
                | S k => Some (s (S k) - s k)%Z
                end) (seq (S j) m).
Proof.
  revert j. induction m as [|m IH]; intros j; [reflexivity|].
  simpl. f_equal. apply IH.
Qed.

Lemma diff_map_seq (s : nat -> Z) (n : nat) :
  diff (map s (seq 0 n)) =
  map (fun i => match i with
                | O => None
                | S k => Some (s (S k) - s k)%Z
                end) (seq 0 n).
Proof.
  destruct n as [|n]; [reflexivity|].
  simpl. f_equal. apply diff_from_map_seq.
Qed.

(** Row [i] of the signal frame is [frame_row_at df i]. *)
Lemma generate_signals_indexed (df : list MARow) :
  generate_signals df = map (frame_row_at df) (seq 0 (length df)).
Proof.
  unfold generate_signals.
  pose proof (list_as_nth_map df no_ma) as E.
  set (idx := seq 0 (length df)) in *.
  assert (Es : map (fun r => signal_of (ma_SMA_Short r) (ma_SMA_Long r)) df =
               map (frame_signal_at df) idx).
  { rewrite E at 1. rewrite map_map. reflexivity. }
  rewrite Es. unfold idx at 2. rewrite diff_map_seq. fold idx.
  rewrite combine_map_same.
  set (cells := map _ idx). set (rows := map (frame_row_at df) idx).
  rewrite E. unfold cells, rows.
  rewrite combine_map_same, map_map. reflexivity.
Qed.

Lemma nth_error_map_seq {A : Type} (f : nat -> A) (n i : nat) (x : A) :
  nth_error (map f (seq 0 n)) i = Some x -> (i < n)%nat /\ x = f i.
Proof.
  intros H. rewrite nth_error_map in H.
  destruct (nth_error (seq 0 n) i) as [k|] eqn:E; [|discriminate].
  assert (Hlt : (i < n)%nat).
  { rewrite <- (length_seq n 0). apply nth_error_Some. congruence. }
  rewrite nth_error_seq in E.
  destruct (i <? n)%nat eqn:El.
  - injection E as <-. simpl in H. injection H as <-. auto.
  - discriminate.
Qed.

(** The [Position] column, read by row number. *)
Lemma position_column (df : list MARow) :
  (forall r, nth_error (generate_signals df) 0 = Some r -> Position r = None) /\
  (forall i r' r,
     nth_error (generate_signals df) i = Some r' ->
     nth_error (generate_signals df) (S i) = Some r ->
     Position r = Some (Signal r - Signal r')%Z).
Proof.
  rewrite generate_signals_indexed. split.
  - intros r H. apply nth_error_map_seq in H. destruct H as [_ ->]. reflexivity.
  - intros i r' r H' H.
    apply nth_error_map_seq in H'. destruct H' as [_ ->].
    apply nth_error_map_seq in H. destruct H as [_ ->].
    reflexivity.
Qed.

(** X3.  The [Position] column is the difference of the [Signal] column
    with the row above: NaN on the first row of the frame, [Signal] of
    the row minus [Signal] of the previous row everywhere else. *)
Theorem position_is_signal_difference (df : list MARow) :
  (forall r, nth_error (generate_signals df) 0 = Some r -> Position r = None) /\
  (forall i r' r,
     nth_error (generate_signals df) i = Some r' ->
     nth_error (generate_signals df) (S i) = Some r ->
     Position r = Some (Signal r - Signal r')%Z).
Proof. exact (position_column df). Qed.

Lemma position_is_signal_difference_witness :
  nth_error (generate_signals (calculate_moving_averages rising_prices 1 2)) 2
    = Some rising_row /\
  Position rising_row = Some (Signal rising_row - -1)%Z.
Proof.
  split; [reflexivity|].
  exact (proj2 (position_is_signal_difference
                  (calculate_moving_averages rising_prices 1 2))
               1%nat (mkSigRow 1%nat 2 (Some 2) (Some (5 # 2)) (-1)%Z (Some (-1)%Z))
               rising_row eq_refl eq_refl).
Defined.

Lemma signal_of_range (a b : option Q) :
  signal_of a b = 1%Z \/ signal_of a b = 0%Z \/ signal_of a b = (-1)%Z.
Proof.
  destruct a as [s|], b as [l|]; try (right; left; reflexivity).
  rewrite signal_of_defined. destruct (Qle_bool s l); auto.
Qed.

Lemma signal_of_up (a b : option Q) :
  signal_of a b = 1%Z <-> exists s l, a = Some s /\ b = Some l /\ l < s.
Proof.
  split.
  - destruct a as [s|], b as [l|]; try discriminate.
    rewrite signal_of_defined. destruct (Qle_bool s l) eqn:E; [discriminate|].
    intros _. exists s, l. repeat split.
    apply Qnot_le_lt. intros H. apply Qle_bool_iff in H. congruence.
  - intros [s [l [-> [-> H]]]]. rewrite signal_of_defined.
    destruct (Qle_bool s l) eqn:E; [|reflexivity].
    apply Qle_bool_iff in E. lra.
Qed.

Lemma signal_of_down (a b : option Q) :
  signal_of a b = (-1)%Z <-> exists s l, a = Some s /\ b = Some l /\ s <= l.
Proof.
  split.
  - destruct a as [s|], b as [l|]; try discriminate.
    rewrite signal_of_defined. destruct (Qle_bool s l) eqn:E; [|discriminate].
    intros _. exists s, l. repeat split. apply Qle_bool_iff. exact E.
  - intros [s [l [-> [-> H]]]]. rewrite signal_of_defined.
    apply Qle_bool_iff in H. rewrite H. reflexivity.
Qed.

(** X4.  What a crossover is: a row carries [Position == 2] exactly when
    both averages are defined on it and on the row above, the short one
    being at most the long one above and strictly greater on the row;
    it carries [Position == -2] exactly in the mirrored situation. *)
Theorem crossover_meaning (df : list MARow) (i : nat) (r' r : SigRow) :
  nth_error (generate_signals df) i = Some r' ->
  nth_error (generate_signals df) (S i) = Some r ->
  (Position r = Some 2%Z <->
   exists s' l' s l,
     SMA_Short r' = Some s' /\ SMA_Long r' = Some l' /\ s' <= l' /\
     SMA_Short r = Some s /\ SMA_Long r = Some l /\ l < s) /\
  (Position r = Some (-2)%Z <->
   exists s' l' s l,
     SMA_Short r' = Some s' /\ SMA_Long r' = Some l' /\ l' < s' /\
     SMA_Short r = Some s /\ SMA_Long r = Some l /\ s <= l).
Proof.
  intros H' H.
  pose proof (proj2 (position_column df) i r' r H' H) as Hp.
  apply nth_error_In in H'. apply nth_error_In in H.
  apply generate_signals_row in H'. destruct H' as [Hs' _].
  apply generate_signals_row in H. destruct H as [Hs _].
  rewrite Hp.
  pose proof (signal_of_range (SMA_Short r') (SMA_Long r')) as R'.
  pose proof (signal_of_range (SMA_Short r) (SMA_Long r)) as R.
  pose proof (signal_of_up (SMA_Short r) (SMA_Long r)) as U.
  pose proof (signal_of_down (SMA_Short r) (SMA_Long r)) as D.
  pose proof (signal_of_up (SMA_Short r') (SMA_Long r')) as U'.
  pose proof (signal_of_down (SMA_Short r') (SMA_Long r')) as D'.
  rewrite <- Hs in *. rewrite <- Hs' in *.
  split; split.
  - intros E. injection E as E.
    assert (E1 : Signal r = 1%Z) by lia.
    assert (E2 : Signal r' = (-1)%Z) by lia.
    apply U in E1. apply D' in E2.
    destruct E1 as [s [l [A [B C]]]]. destruct E2 as [s' [l' [A' [B' C']]]].
    exists s', l', s, l. auto 10.
  - intros [s' [l' [s [l [A' [B' [C' [A [B C]]]]]]]]].
    assert (E1 : Signal r = 1%Z) by (apply U; eauto).
    assert (E2 : Signal r' = (-1)%Z) by (apply D'; eauto).
    rewrite E1, E2. reflexivity.
  - intros E. injection E as E.
    assert (E1 : Signal r = (-1)%Z) by lia.
    assert (E2 : Signal r' = 1%Z) by lia.
    apply D in E1. apply U' in E2.
    destruct E1 as [s [l [A [B C]]]]. destruct E2 as [s' [l' [A' [B' C']]]].
    exists s', l', s, l. auto 10.
  - intros [s' [l' [s [l [A' [B' [C' [A [B C]]]]]]]]].
    assert (E1 : Signal r = (-1)%Z) by (apply D; eauto).
    assert (E2 : Signal r' = 1%Z) by (apply U'; eauto).
    rewrite E1, E2. reflexivity.
Qed.

Lemma crossover_meaning_witness :
  nth_error (generate_signals (calculate_moving_averages rising_prices 1 2)) 1
    = Some (mkSigRow 1%nat 2 (Some 2) (Some (5 # 2)) (-1)%Z (Some (-1)%Z)) /\
  nth_error (generate_signals (calculate_moving_averages rising_prices 1 2)) 2
    = Some rising_row /\
  exists s' l' s l,
    Some 2 = Some s' /\ Some (5 # 2) = Some l' /\ s' <= l' /\
    SMA_Short rising_row = Some s /\ SMA_Long rising_row = Some l /\ l < s.
Proof.
  split; [reflexivity|]. split; [reflexivity|].
  exact (proj1 (proj1 (crossover_meaning
                         (calculate_moving_averages rising_prices 1 2) 1%nat
                         (mkSigRow 1%nat 2 (Some 2) (Some (5 # 2)) (-1)%Z (Some (-1)%Z))
                         rising_row eq_refl eq_refl))
               eq_refl).
Defined.

(** ** Which rows reach the simulator *)

Lemma nth_map_seq {A : Type} (f : nat -> A) (n i : nat) (d : A) :
  (i < n)%nat -> nth i (map f (seq 0 n)) d = f i.
Proof.
  intros H. rewrite (nth_indep _ d (f 0%nat)) by (rewrite length_map, length_seq; exact H).
  rewrite map_nth, seq_nth by exact H. reflexivity.
Qed.

Lemma calculate_moving_averages_length (prices : list Bar) (sw lw : nat) :
  length (calculate_moving_averages prices sw lw) = length prices.
Proof.
  rewrite calculate_moving_averages_indexed, length_map, length_seq. reflexivity.
Qed.

Lemma frame_signal_at_prices (prices : list Bar) (sw lw i : nat) :
  (i < length prices)%nat ->
  frame_signal_at (calculate_moving_averages prices sw lw) i =
  signal_at prices sw lw i.
Proof.
  intros H. unfold frame_signal_at.
  rewrite calculate_moving_averages_indexed, nth_map_seq by exact H. reflexivity.
Qed.

(** Row [i] of the frame handed to the simulator is [sig_row_at ... i]. *)
Lemma signals_of_prices_indexed (prices : list Bar) (sw lw : nat) :
  signals_of_prices prices sw lw =
  map (sig_row_at prices sw lw) (seq 0 (length prices)).
Proof.
  unfold signals_of_prices. rewrite generate_signals_indexed.
  rewrite calculate_moving_averages_length.
  apply map_ext_in. intros i Hi. apply in_seq in Hi.
  unfold frame_row_at, sig_row_at.
  rewrite frame_signal_at_prices by lia.
  assert (Hp : frame_position_at (calculate_moving_averages prices sw lw) i =
               position_at prices sw lw i).
  { destruct i as [|j]; [reflexivity|]. unfold frame_position_at, position_at.
    rewrite !frame_signal_at_prices by lia. reflexivity. }
  rewrite Hp.
  rewrite calculate_moving_averages_indexed, nth_map_seq by lia. reflexivity.
Qed.

Lemma rolling_mean_at_defined (w : nat) (xs : list Q) (i : nat) :
  (exists q, rolling_mean_at w xs i = Some q) <-> (1 <= w <= i + 1)%nat.
Proof.
  unfold rolling_mean_at.
  destruct (Nat.eqb_spec w 0) as [E0|E0]; cbn [orb].
  - split; [intros [q H]; discriminate | lia].
  - destruct (Nat.ltb_spec (i + 1) w) as [E1|E1].
    + split; [intros [q H]; discriminate | lia].
    + split; [lia | intros _; eexists; reflexivity].
Qed.

Lemma has_no_nan_at (prices : list Bar) (sw lw i : nat) :
  has_no_nan (sig_row_at prices sw lw i) =
  (1 <=? sw)%nat && (1 <=? lw)%nat && (warmup sw lw <=? i)%nat.
Proof.
  unfold has_no_nan, sig_row_at. cbn [SMA_Short SMA_Long Position].
  pose proof (rolling_mean_at_defined sw (closes_of prices) i) as Hs.
  pose proof (rolling_mean_at_defined lw (closes_of prices) i) as Hl.
  unfold warmup.
  destruct (rolling_mean_at sw (closes_of prices) i) as [s|].
  - assert (Es : (1 <= sw <= i + 1)%nat) by (apply Hs; eauto).
    destruct (rolling_mean_at lw (closes_of prices) i) as [l|].
    + assert (El : (1 <= lw <= i + 1)%nat) by (apply Hl; eauto).
      destruct i as [|i]; simpl position_at; cbv iota.
      * symmetry. apply andb_false_iff. right. apply Nat.leb_gt. lia.
      * symmetry. rewrite !andb_true_iff, !Nat.leb_le. lia.
    + symmetry. rewrite !andb_false_iff, !Nat.leb_gt.
      destruct (Nat.lt_ge_cases lw 1); [auto|].
      right. destruct (Nat.lt_ge_cases i (Nat.max 1 (Nat.max sw lw - 1))); [auto|].
      exfalso. assert (exists q, None = Some q) as [q Hq] by (apply Hl; lia).
      discriminate.
  - symmetry. rewrite !andb_false_iff, !Nat.leb_gt.
    destruct (Nat.lt_ge_cases sw 1); [auto|].
    destruct (Nat.lt_ge_cases i (Nat.max 1 (Nat.max sw lw - 1))); [auto|].
    exfalso. assert (exists q, None = Some q) as [q Hq] by (apply Hs; lia).
    discriminate.
Qed.

Lemma filter_seq_from (k a n : nat) :
  filter (fun i => (k <=? i)%nat) (seq a n) =
  seq (Nat.max a k) (a + n - Nat.max a k).
Proof.
  revert a. induction n as [|n IH]; intros a.
  - simpl. replace (a + 0 - Nat.max a k)%nat with 0%nat by lia. reflexivity.
  - simpl. rewrite IH. destruct (k <=? a)%nat eqn:E.
    + apply Nat.leb_le in E.
      replace (Nat.max (S a) k) with (S a) by lia.
      replace (Nat.max a k) with a by lia.
      replace (S a + n - S a)%nat with n by lia.
      replace (a + S n - a)%nat with (S n) by lia. reflexivity.
    + apply Nat.leb_gt in E.
      replace (Nat.max (S a) k) with k by lia.
      replace (Nat.max a k) with k by lia.
      f_equal. lia.
Qed.

Lemma filter_map_comm {A B : Type} (f : A -> B) (p : B -> bool) (l : list A) :
  filter p (map f l) = map f (filter (fun x => p (f x)) l).
Proof.
  induction l as [|a l IH]; [reflexivity|].
  simpl. destruct (p (f a)); simpl; rewrite IH; reflexivity.
Qed.

(** The filtered frame, row by row. *)
Lemma dropna_indexed (prices : list Bar) (sw lw : nat) :
  (1 <= sw)%nat -> (1 <= lw)%nat ->
  dropna (signals_of_prices prices sw lw) =
  map (sig_row_at prices sw lw)
      (seq (warmup sw lw) (length prices - warmup sw lw)).
Proof.
  intros Hs Hl. unfold dropna.
  rewrite signals_of_prices_indexed, filter_map_comm. f_equal.
  rewrite (filter_ext _ (fun i => (warmup sw lw <=? i)%nat)).
  - rewrite filter_seq_from. f_equal; unfold warmup; lia.
  - intros i. rewrite has_no_nan_at.
    apply Nat.leb_le in Hs. apply Nat.leb_le in Hl. rewrite Hs, Hl. reflexivity.
Qed.

(** What [dropna] keeps of the signal frame of a price series. *)
Lemma dropna_on_prices (prices : list Bar) (short_window long_window : nat) :
  ((1 <= short_window)%nat -> (1 <= long_window)%nat ->
     dropna (signals_of_prices prices short_window long_window) =
       skipn (warmup short_window long_window)
             (signals_of_prices prices short_window long_window) /\
     length (dropna (signals_of_prices prices short_window long_window)) =
       (length prices - warmup short_window long_window)%nat) /\
  (short_window = 0%nat \/ long_window = 0%nat ->
     dropna (signals_of_prices prices short_window long_window) = []).
Proof.
  split.
  - intros Hs Hl. rewrite dropna_indexed by assumption. split.
    + rewrite signals_of_prices_indexed, skipn_map, skipn_seq. reflexivity.
    + rewrite length_map, length_seq. reflexivity.
  - intros H0. unfold dropna. apply filter_none. intros r Hr.
    rewrite signals_of_prices_indexed in Hr.
    apply in_map_iff in Hr. destruct Hr as [i [<- _]].
    rewrite has_no_nan_at. destruct H0 as [-> | ->].
    + reflexivity.
    + cbn [Nat.leb]. rewrite andb_false_r. reflexivity.
Qed.

(** X5.  The warm-up filter removes a prefix of the frame and nothing
    else.  With both windows positive, [dropna] removes exactly the first
    [max 1 (max short long - 1)] rows and keeps all the others in order;
    with a window of zero no row survives. *)
Theorem dropna_removes_warmup (prices : list Bar) (short_window long_window : nat) :
  ((1 <= short_window)%nat -> (1 <= long_window)%nat ->
     dropna (signals_of_prices prices short_window long_window) =
       skipn (warmup short_window long_window)
             (signals_of_prices prices short_window long_window) /\
     length (dropna (signals_of_prices prices short_window long_window)) =
       (length prices - warmup short_window long_window)%nat) /\
  (short_window = 0%nat \/ long_window = 0%nat ->
     dropna (signals_of_prices prices short_window long_window) = []).
Proof. exact (dropna_on_prices prices short_window long_window). Qed.

Lemma dropna_removes_warmup_witness :
  (1 <= 1)%nat /\ (1 <= 2)%nat /\
  dropna (signals_of_prices rising_prices 1 2) =
    skipn (warmup 1 2) (signals_of_prices rising_prices 1 2) /\
  length (dropna (signals_of_prices rising_prices 1 2)) = 2%nat.
Proof.
  assert (H1 : (1 <= 1)%nat) by lia.
  assert (H2 : (1 <= 2)%nat) by lia.
  split; [exact H1|]. split; [exact H2|].
  exact (proj1 (dropna_removes_warmup rising_prices 1 2) H1 H2).
Defined.

Lemma signal_of_undefined (a b : option Q) :
  a = None \/ b = None -> signal_of a b = 0%Z.
Proof.
  intros [-> | ->]; [reflexivity|]. destruct a; reflexivity.
Qed.

Lemma rolling_mean_at_warming (w : nat) (xs : list Q) (i : nat) :
  (i + 1 < w)%nat -> rolling_mean_at w xs i = None.
Proof.
  intros H. unfold rolling_mean_at.
  apply Nat.ltb_lt in H. rewrite H, orb_true_r. reflexivity.
Qed.

(** X6.  The first row that reaches the simulator never triggers a trade:
    its [Position] is the difference with a row that was still warming up
    (or, with two windows of one day, with an equal signal), never [2] nor
    [-2]. *)
Theorem first_filtered_row_no_crossover
    (prices : list Bar) (short_window long_window : nat)
    (r : SigRow) (rest : list SigRow) :
  dropna (signals_of_prices prices short_window long_window) = r :: rest ->
  no_crossover r.
Proof.
  intros H.
  destruct (Nat.eq_dec short_window 0) as [E0|E0].
  { rewrite (proj2 (dropna_on_prices prices _ _)) in H by auto. discriminate. }
  destruct (Nat.eq_dec long_window 0) as [E1|E1].
  { rewrite (proj2 (dropna_on_prices prices _ _)) in H by auto. discriminate. }
  rewrite dropna_indexed in H by lia.
  destruct (length prices - warmup short_window long_window)%nat as [|m];
    [discriminate|].
  simpl in H. injection H as Hr _. subst r.
  unfold no_crossover, sig_row_at. cbn [Position].
  assert (Hk : exists j, warmup short_window long_window = S j).
  { unfold warmup. destruct (Nat.max 1 (Nat.max short_window long_window - 1)) eqn:E;
      [lia | eauto]. }
  destruct Hk as [j Hj]. rewrite Hj. unfold position_at.
  assert (Hsmall : (-1 <= signal_at prices short_window long_window (S j)
                          - signal_at prices short_window long_window j <= 1)%Z).
  { destruct (Nat.eq_dec short_window long_window) as [Eq|Ne].
    - unfold signal_at. rewrite Eq.
      destruct (signal_of_same (rolling_mean_at long_window (closes_of prices) (S j)))
        as [A|A];
      destruct (signal_of_same (rolling_mean_at long_window (closes_of prices) j))
        as [B|B]; rewrite A, B; lia.
    - assert (Hz : signal_at prices short_window long_window j = 0%Z).
      { unfold signal_at. apply signal_of_undefined. unfold warmup in Hj.
        destruct (Nat.le_gt_cases short_window long_window).
        - right. apply rolling_mean_at_warming. lia.
        - left. apply rolling_mean_at_warming. lia. }
      rewrite Hz. unfold signal_at.
      destruct (signal_of_range
                  (rolling_mean_at short_window (closes_of prices) (S j))
                  (rolling_mean_at long_window (closes_of prices) (S j)))
        as [A|[A|A]]; rewrite A; lia. }
  split; intros E; injection E as E; lia.
Qed.

Lemma first_filtered_row_no_crossover_witness :
  dropna (signals_of_prices rising_prices 1 2) =
    [mkSigRow 1%nat 2 (Some 2) (Some (5 # 2)) (-1)%Z (Some (-1)%Z); rising_row] /\
  no_crossover (mkSigRow 1%nat 2 (Some 2) (Some (5 # 2)) (-1)%Z (Some (-1)%Z)).
Proof.
  split; [reflexivity|].
  exact (first_filtered_row_no_crossover rising_prices 1 2 _ _ eq_refl).
Defined.

(** ** The books of the simulator *)

Lemma well_paired_app (o : option (Q * Z)) (l1 l2 : list trade) :
  well_paired o l1 -> well_paired (open_end o l1) l2 -> well_paired o (l1 ++ l2).
Proof.
  revert o. induction l1 as [|t l1 IH]; intros o H1 H2; [exact H2|].
  destruct t as [d p n | d p n profit pct]; simpl in *.
  - destruct H1 as [Ho [Hn H1]]. repeat split; auto.
  - destruct o as [[p0 n0]|]; [|contradiction].
    destruct H1 as [A [B [C H1]]]. repeat split; auto.
Qed.

Lemma open_end_app (o : option (Q * Z)) (l1 l2 : list trade) :
  open_end o (l1 ++ l2) = open_end (open_end o l1) l2.
Proof.
  revert o. induction l1 as [|t l1 IH]; intros o; [reflexivity|].
  destruct t; simpl; apply IH.
Qed.

Lemma Qsum_app (l1 l2 : list Q) : Qsum (l1 ++ l2) == Qsum l1 + Qsum l2.
Proof.
  induction l1 as [|x l1 IH]; simpl.
  - ring.
  - fold (Qsum (l1 ++ l2)). fold (Qsum l1). rewrite IH. ring.
Qed.

Lemma realized_profit_snoc (l : list trade) (t : trade) :
  realized_profit (l ++ [t]) == realized_profit l + profit_of t.
Proof.
  unfold realized_profit. rewrite map_app, Qsum_app. simpl. ring.
Qed.

Lemma init_books_ok (c0 : Q) : books_ok c0 (init_sim c0).
Proof.
  constructor; simpl; try reflexivity; try exact I.
Qed.

(** Every iteration keeps the books, whatever the row. *)
Lemma step_books_ok (c0 : Q) (s s' : sim) (row : SigRow) :
  books_ok c0 s -> step s row = Ok s' -> books_ok c0 s'.
Proof.
  intros [Hp Ho Hc]. unfold step.
  destruct (position_is row 2 && negb (in_position s)) eqn:Ebuy.
  - apply andb_true_iff in Ebuy. destruct Ebuy as [_ Eflat].
    apply negb_true_iff in Eflat.
    unfold open_position, cost_basis in *. rewrite Eflat in *.
    destruct (floor_div (capital s) (Close row)) as [n|]; [|discriminate].
    destruct (n >? 0)%Z eqn:En; intros H; injection H as <-.
    + apply Z.gtb_lt in En. constructor; proj_simpl.
      * apply well_paired_app; [exact Hp|]. rewrite Ho. simpl. auto.
      * rewrite open_end_app, Ho. reflexivity.
      * unfold open_position, cost_basis. proj_simpl.
        rewrite realized_profit_snoc. simpl profit_of. lra.
    + constructor; proj_simpl; unfold open_position, cost_basis; proj_simpl;
        rewrite ?Eflat; assumption.
  - destruct (position_is row (-2) && in_position s) eqn:Esell.
    + apply andb_true_iff in Esell. destruct Esell as [_ Ein].
      unfold open_position, cost_basis in *. rewrite Ein in *.
      intros H; injection H as <-. constructor; proj_simpl.
      * apply well_paired_app; [exact Hp|]. rewrite Ho. simpl. auto.
      * rewrite open_end_app, Ho. reflexivity.
      * unfold open_position, cost_basis. proj_simpl.
        rewrite realized_profit_snoc. simpl profit_of. lra.
    + intros H; injection H as <-.
      constructor; proj_simpl; unfold open_position, cost_basis in *; proj_simpl;
        assumption.
Qed.

Lemma run_books_ok (c0 : Q) (rows : list SigRow) (s s' : sim) :
  books_ok c0 s -> run s rows = Ok s' -> books_ok c0 s'.
Proof.
  revert s. induction rows as [|row rows IH]; intros s Hs H.
  - injection H as <-. exact Hs.
  - simpl in H. destruct (step s row) as [s1| |] eqn:E; try discriminate.
    eapply IH; [|exact H]. eapply step_books_ok; eauto.
Qed.

(** What [simulate_trades] returns, in terms of the final state of the loop. *)
Lemma simulate_trades_result (df : list SigRow) (c0 : Q) (res : results) :
  simulate_trades df c0 = Ok res ->
  exists s last,
    run (init_sim c0) (dropna df) = Ok s /\
    iloc_last (dropna df) = Ok last /\
    res = mkResults (trades s) (portfolio_values s)
            (capital s + inject_Z (shares s) * Close last) c0
            (shares s) (capital s) (in_position s)
            (if in_position s
             then (Close last - entry_price s) * inject_Z (shares s) else 0)
            (if in_position s
             then times100 (true_div (Close last - entry_price s) (entry_price s))
             else Fin 0).
Proof.
  unfold simulate_trades. intros H.
  destruct (run (init_sim c0) (dropna df)) as [s| |]; try discriminate.
  destruct (iloc_last (dropna df)) as [last| |]; try discriminate.
  injection H as <-. exists s, last. auto.
Qed.

Lemma trade_log_pairs_aux (df : list SigRow) (c0 : Q) (res : results) :
  simulate_trades df c0 = Ok res ->
  well_paired None (res_trades res) /\
  open_end None (res_trades res) =
    (if res_in_position res
     then Some (match open_end None (res_trades res) with
                | Some (p0, _) => p0
                | None => 0
                end, res_shares_held res)
     else None).
Proof.
  intros H. apply simulate_trades_result in H.
  destruct H as [s [last [Hrun [Hlast ->]]]].
  pose proof (run_books_ok _ _ _ _ (init_books_ok c0) Hrun) as [Hp Ho Hc].
  cbn [res_trades res_in_position res_shares_held].
  split; [exact Hp|]. rewrite Ho. unfold open_position.
  destruct (in_position s); reflexivity.
Qed.

(** X7.  The trade log of every run that returns is a sequence of round
    trips: each BUY buys a positive number of shares while no position is
    open, and each SELL closes the BUY before it, with the same share
    count and with profit and profit percentage computed against that
    BUY's price.  When the run ends in position, the last BUY is the open
    one: it holds [shares_held] shares, and the unrealized profit is the
    last close minus its price, times the shares. *)
Theorem trade_log_round_trips (df : list SigRow) (initial_capital : Q) (res : results) :
  simulate_trades df initial_capital = Ok res ->
  well_paired None (res_trades res) /\
  (res_in_position res = false ->
     open_end None (res_trades res) = None /\ res_unrealized_profit res = 0) /\
  (res_in_position res = true ->
     exists p0 last,
       open_end None (res_trades res) = Some (p0, res_shares_held res) /\
       iloc_last (dropna df) = Ok last /\
       res_unrealized_profit res =
         (Close last - p0) * inject_Z (res_shares_held res)).
Proof.
  intros H. apply simulate_trades_result in H.
  destruct H as [s [last [Hrun [Hlast ->]]]].
  pose proof (run_books_ok _ _ _ _ (init_books_ok initial_capital) Hrun)
    as [Hp Ho Hc].
  cbn [res_trades res_in_position res_shares_held res_unrealized_profit].
  unfold open_position in Ho.
  split; [exact Hp|]. split.
  - intros E. rewrite E in *. auto.
  - intros E. rewrite E in *. exists (entry_price s), last. auto.
Qed.

Lemma trade_log_round_trips_witness :
  exists res,
    simulate_trades (signals_of_prices rising_prices 1 2) 1000 = Ok res /\
    well_paired None (res_trades res) /\
    exists p0 last,
      open_end None (res_trades res) = Some (p0, res_shares_held res) /\
      iloc_last (dropna (signals_of_prices rising_prices 1 2)) = Ok last /\
      res_unrealized_profit res =
        (Close last - p0) * inject_Z (res_shares_held res).
Proof.
  eexists. split; [reflexivity|].
  destruct (trade_log_round_trips (signals_of_prices rising_prices 1 2) 1000 _ eq_refl)
    as [Hp [_ Ho]].
  split; [exact Hp|]. apply Ho. reflexivity.
Defined.

Lemma well_paired_count (o : option (Q * Z)) (l : list trade) :
  well_paired o l ->
  (length l + open_count o = 2 * count_if is_sell l + open_count (open_end o l))%nat.
Proof.
  revert o. induction l as [|t l IH]; intros o H.
  - simpl. lia.
  - destruct t as [d p n | d p n profit pct]; simpl in H.
    + destruct H as [-> [_ H]]. apply IH in H. simpl in *. lia.
    + destruct o as [[p0 n0]|]; [|contradiction].
      destruct H as [_ [_ [_ H]]]. apply IH in H. simpl in *. lia.
Qed.

(** X8.  Trade count across [simulate_trades] and [calculate_metrics]:
    the log of a run that returns holds exactly two entries per counted
    trade, plus one when the run ends in position (the open BUY, which
    [num_trades] leaves out). *)
Theorem log_length_and_num_trades
    (df : list SigRow) (initial_capital : Q) (res : results) :
  simulate_trades df initial_capital = Ok res ->
  length (res_trades res) =
    (2 * num_trades (calculate_metrics res)
     + (if res_in_position res then 1 else 0))%nat.
Proof.
  intros H.
  destruct (trade_log_pairs_aux df initial_capital res H) as [Hp Ho].
  apply well_paired_count in Hp. rewrite Ho in Hp.
  unfold calculate_metrics. cbn [num_trades].
  rewrite length_filter_count.
  destruct (res_in_position res); simpl in Hp |- *; lia.
Qed.

Lemma log_length_and_num_trades_witness :
  exists res,
    simulate_trades (signals_of_prices rising_prices 1 2) 1000 = Ok res /\
    length (res_trades res) =
      (2 * num_trades (calculate_metrics res)
       + (if res_in_position res then 1 else 0))%nat.
Proof.
  eexists. split; [reflexivity|].
  exact (log_length_and_num_trades (signals_of_prices rising_prices 1 2) 1000 _ eq_refl).
Defined.






(** ** When the simulation returns *)

(** On positive closes and a non-negative capital the only way to fail is
    the empty filtered frame. *)
Lemma simulate_trades_positive (df : list SigRow) (c0 : Q) :
  0 <= c0 -> Forall positive_close (dropna df) -> dropna df <> [] ->
  exists s last,
    run (init_sim c0) (dropna df) = Ok s /\ state_ok s /\
    iloc_last (dropna df) = Ok last /\
    simulate_trades df c0 =
      Ok (mkResults (trades s) (portfolio_values s)
            (capital s + inject_Z (shares s) * Close last) c0
            (shares s) (capital s) (in_position s)
            (if in_position s
             then (Close last - entry_price s) * inject_Z (shares s) else 0)
            (if in_position s
             then times100 (true_div (Close last - entry_price s) (entry_price s))
             else Fin 0)).
Proof.
  intros Hc Hpos Hne.
  destruct (run_ok (dropna df) (init_sim c0) (init_sim_ok _ Hc) Hpos)
    as [s [Hrun Hok]].
  destruct (iloc_last_nonempty _ Hne) as [last Hlast].
  exists s, last.
  split; [exact Hrun|]. split; [exact Hok|]. split; [exact Hlast|].
  unfold simulate_trades. rewrite Hrun, Hlast. reflexivity.
Qed.

Lemma iloc_last_in (df : list SigRow) (r : SigRow) :
  iloc_last df = Ok r -> exists front, df = front ++ [r].
Proof.
  unfold iloc_last. destruct (rev df) as [|x l] eqn:E; [discriminate|].
  intros H. injection H as <-. exists (rev l).
  rewrite <- (rev_involutive df), E. reflexivity.
Qed.

(** X10.  When the backtest can be simulated.  For positive closes, a
    non-negative initial capital and positive windows, [simulate_trades]
    on the signal frame returns exactly when the series has more rows
    than the warm-up removes, that is at least [max 2 (max short long)]
    closes; it then records one snapshot per remaining row and ends with
    non-negative cash, share count and final value.  On a shorter series
    it raises [IndexError]. *)
Theorem simulation_needs_warmup
    (prices : list Bar) (short_window long_window : nat) (initial_capital : Q) :
  Forall (fun b => 0 < bar_Close b) prices ->
  0 <= initial_capital ->
  (1 <= short_window)%nat -> (1 <= long_window)%nat ->
  ((warmup short_window long_window < length prices)%nat ->
     exists res,
       simulate_trades (signals_of_prices prices short_window long_window)
                       initial_capital = Ok res /\
       length (res_portfolio_df res) =
         (length prices - warmup short_window long_window)%nat /\
       0 <= res_cash res /\ (0 <= res_shares_held res)%Z /\
       0 <= res_final_value res) /\
  ((length prices <= warmup short_window long_window)%nat ->
     simulate_trades (signals_of_prices prices short_window long_window)
                     initial_capital = IndexError).
Proof.
  intros Hprices Hcap Hs Hl.
  destruct (dropna_on_prices prices short_window long_window) as [Hd _].
  destruct (Hd Hs Hl) as [_ Hlen]. split.
  - intros Hn.
    assert (Hne : dropna (signals_of_prices prices short_window long_window) <> []).
    { intros E. rewrite E in Hlen. simpl in Hlen. lia. }
    destruct (simulate_trades_positive _ _ Hcap
                (filtered_positive prices short_window long_window Hprices) Hne)
      as [s [last [Hrun [Hok [Hlast Hsim]]]]].
    eexists. split; [exact Hsim|].
    cbn [res_portfolio_df res_cash res_shares_held res_final_value].
    destruct Hok as [Hc Hsh _ _ _].
    split; [|split; [exact Hc | split; [exact Hsh|]]].
    + destruct (run_extends _ _ _ Hrun) as [tail [Ht Hl']].
      rewrite Ht. simpl. rewrite Hl'. exact Hlen.
    + assert (Hp : 0 < Close last).
      { destruct (iloc_last_in _ _ Hlast) as [front Hf].
        pose proof (filtered_positive prices short_window long_window Hprices) as F.
        rewrite Hf in F. apply Forall_app in F. destruct F as [_ F].
        inversion F; assumption. }
      assert (0 <= inject_Z (shares s) * Close last).
      { apply Qmult_le_0_compat; [|apply Qlt_le_weak; exact Hp].
        change 0 with (inject_Z 0). rewrite <- Zle_Qle. exact Hsh. }
      lra.
  - intros Hn. unfold simulate_trades.
    assert (E : dropna (signals_of_prices prices short_window long_window) = []).
    { apply length_zero_iff_nil. lia. }
    rewrite E. reflexivity.
Qed.

Lemma simulation_needs_warmup_witness :
  Forall (fun b => 0 < bar_Close b) rising_prices /\
  0 <= 1000 /\ (1 <= 1)%nat /\ (1 <= 2)%nat /\
  (warmup 1 2 < length rising_prices)%nat /\
  exists res,
    simulate_trades (signals_of_prices rising_prices 1 2) 1000 = Ok res /\
    length (res_portfolio_df res) = (length rising_prices - warmup 1 2)%nat /\
    0 <= res_cash res /\ (0 <= res_shares_held res)%Z /\
    0 <= res_final_value res.
Proof.
  assert (H1 : Forall (fun b => 0 < bar_Close b) rising_prices)
    by (repeat constructor).
  assert (H2 : 0 <= 1000) by discriminate.
  assert (H3 : (1 <= 1)%nat) by lia.
  assert (H4 : (1 <= 2)%nat) by lia.
  assert (H5 : (warmup 1 2 < length rising_prices)%nat) by (vm_compute; lia).
  repeat (split; [assumption|]).
  exact (proj1 (simulation_needs_warmup rising_prices 1 2 1000 H1 H2 H3 H4) H5).
Defined.

(** X11.  The final value is the last point of the trajectory: for a
    non-negative initial capital and positive closes, the value of the
    last recorded snapshot equals [final_value]. *)
Theorem final_value_is_last_snapshot
    (df : list SigRow) (initial_capital : Q) (res : results) :
  simulate_trades df initial_capital = Ok res ->
  0 <= initial_capital ->
  Forall positive_close (dropna df) ->
  exists front snap,
    res_portfolio_df res = front ++ [snap] /\
    Value snap == res_final_value res.
Proof.
  intros H Hcap Hpos. apply simulate_trades_result in H.
  destruct H as [s [last [Hrun [Hlast ->]]]].
  cbn [res_portfolio_df res_final_value].
  destruct (iloc_last_in _ _ Hlast) as [front Hf].
  rewrite Hf in Hrun, Hpos. apply Forall_app in Hpos. destruct Hpos as [Hfront Hl].
  inversion Hl as [|? ? Hp _]; subst.
  destruct (run_ok front (init_sim initial_capital) (init_sim_ok _ Hcap) Hfront)
    as [s1 [Hr1 Hok1]].
  rewrite run_app, Hr1 in Hrun. simpl in Hrun.
  destruct (step s1 last) as [s2| |] eqn:Estep; try discriminate.
  injection Hrun as ->.
  exists (portfolio_values s1),
         (mkSnapshot (Date_ last) (mark_to_market s1 (Close last))).
  split.
  - apply step_recorded in Estep. exact Estep.
  - simpl. apply (step_keeps_value s1 s last Hok1 Hp Estep).
Qed.

Lemma final_value_is_last_snapshot_witness :
  exists res,
    simulate_trades (signals_of_prices rising_prices 1 2) 1000 = Ok res /\
    0 <= 1000 /\
    Forall positive_close (dropna (signals_of_prices rising_prices 1 2)) /\
    exists front snap,
      res_portfolio_df res = front ++ [snap] /\
      Value snap == res_final_value res.
Proof.
  assert (H2 : 0 <= 1000) by discriminate.
  assert (H3 : Forall positive_close (dropna (signals_of_prices rising_prices 1 2)))
    by (repeat constructor).
  eexists. split; [reflexivity|]. split; [exact H2|]. split; [exact H3|].
  exact (final_value_is_last_snapshot (signals_of_prices rising_prices 1 2) 1000 _
           eq_refl H2 H3).
Defined.

(** ** Drawdown of a positive trajectory *)

Lemma drawdown_min_spec (vs : list Q) :
  drawdown_min vs = series_min (map (spec_drawdown_cell vs) (seq 0 (length vs))).
Proof. unfold drawdown_min. rewrite drawdown_column_spec. reflexivity. Qed.

Lemma spec_peak_in (vs : list Q) (t : nat) :
  (t < length vs)%nat -> nth t vs 0 <= spec_peak vs t.
Proof.
  intros Ht. unfold spec_peak.
  destruct vs as [|v vs]; [simpl in Ht; lia|].
  cbn [firstn]. revert v vs Ht. induction t as [|t IH]; intros v vs Ht.
  - simpl. apply Qle_refl.
  - destruct vs as [|w vs]; [simpl in Ht; lia|].
    cbn [firstn fold_left nth].
    specialize (IH (Qmax v w) vs).
    assert (Hlt : (t < length (Qmax v w :: vs))%nat) by (simpl in *; lia).
    destruct t as [|t'].
    + simpl. apply Q.le_max_r.
    + specialize (IH Hlt). cbn [nth] in IH. exact IH.
Qed.

(** The minimum drawdown of a non-empty column of positive values is a
    finite percentage above [-100] and at most [0]. *)
Lemma drawdown_min_bounds (vs : list Q) :
  vs <> [] -> Forall (fun v => 0 < v) vs ->
  exists m, drawdown_min vs = Fin m /\ -100 < m /\ m <= 0.
Proof.
  intros Hne Hpos. rewrite drawdown_min_spec.
  destruct (series_min_of_drawdowns vs Hne) as [m [Hm [Hlow [t [Ht Hatt]]]]].
  { intros t Ht E. pose proof (positive_peaks vs t Hpos Ht) as Hp.
    rewrite E in Hp. inversion Hp. }
  exists m. split; [exact Hm|]. split.
  - rewrite Hatt. unfold spec_drawdown.
    pose proof (positive_peaks vs t Hpos Ht) as Hp.
    assert (Hv : 0 < nth t vs 0).
    { rewrite Forall_forall in Hpos. apply Hpos. apply nth_In. exact Ht. }
    assert (Hq : 0 < nth t vs 0 / spec_peak vs t).
    { apply Qlt_shift_div_l; [exact Hp|]. rewrite Qmult_0_l. exact Hv. }
    assert (E : (nth t vs 0 - spec_peak vs t) / spec_peak vs t * 100 ==
                (nth t vs 0 / spec_peak vs t) * 100 - 100).
    { field. intro E. rewrite E in Hp. inversion Hp. }
    rewrite E. lra.
  - destruct vs as [|v rest]; [contradiction|].
    eapply Qle_trans; [apply (Hlow 0%nat); simpl; lia|].
    unfold spec_drawdown. rewrite spec_peak_0. simpl nth.
    inversion Hpos as [|? ? Hv _]; subst.
    assert (Hz : (v - v) / v * 100 == 0)
      by (field; intro E; rewrite E in Hv; inversion Hv).
    rewrite Hz. apply Qle_refl.
Qed.

(** ** The trajectory of the simulator *)

Lemma init_solvent (c0 : Q) : 0 < c0 -> solvent (init_sim c0).
Proof.
  intros H. split; [apply init_sim_ok; lra | intros _; exact H].
Qed.

Lemma step_solvent (s s' : sim) (row : SigRow) :
  solvent s -> 0 < Close row -> step s row = Ok s' ->
  solvent s' /\ 0 < mark_to_market s (Close row).
Proof.
  intros [Hok Hflat] Hp Hstep.
  destruct (step_ok s row Hok Hp) as [s1 [E1 Hok1]].
  rewrite Hstep in E1. injection E1 as <-.
  assert (Hval : 0 < mark_to_market s (Close row)).
  { unfold mark_to_market. destruct Hok as [Hc Hs Hpi _ _].
    destruct (in_position s) eqn:E.
    - assert (0 < shares s)%Z by (apply Hpi; reflexivity).
      assert (0 < inject_Z (shares s) * Close row).
      { apply Qmult_lt_0_compat; [|exact Hp].
        change 0 with (inject_Z 0). rewrite <- Zlt_Qlt. assumption. }
      lra.
    - assert (0 <= inject_Z (shares s) * Close row).
      { apply Qmult_le_0_compat; [|apply Qlt_le_weak; exact Hp].
        change 0 with (inject_Z 0). rewrite <- Zle_Qle. exact Hs. }
      specialize (Hflat eq_refl). lra. }
  split; [|exact Hval]. split; [exact Hok1|].
  intros Eflat'.
  pose proof (step_keeps_value s s' row Hok Hp Hstep) as Hkeep.
  unfold mark_to_market in Hkeep, Hval.
  destruct Hok1 as [_ Hs' Hpi' _ _].
  assert (Hsh : shares s' = 0%Z).
  { destruct (Z.eq_dec (shares s') 0) as [Z0|Z0]; [exact Z0|].
    assert (in_position s' = true) by (apply Hpi'; lia). congruence. }
  rewrite Hsh in Hkeep. change (inject_Z 0) with 0 in Hkeep. lra.
Qed.

Lemma run_positive_values (rows : list SigRow) (s s' : sim) :
  solvent s -> Forall positive_close rows ->
  Forall (fun sn => 0 < Value sn) (portfolio_values s) ->
  run s rows = Ok s' ->
  Forall (fun sn => 0 < Value sn) (portfolio_values s').
Proof.
  revert s. induction rows as [|row rows IH]; intros s Hs Hrows Hpv Hrun.
  - injection Hrun as <-. exact Hpv.
  - inversion Hrows as [|? ? Hrow Hrest]; subst.
    simpl in Hrun. destruct (step s row) as [s1| |] eqn:E; try discriminate.
    destruct (step_solvent s s1 row Hs Hrow E) as [Hs1 Hval].
    apply (IH s1 Hs1 Hrest); [|exact Hrun].
    rewrite (step_recorded _ _ _ E). unfold recorded.
    apply Forall_app. split; [exact Hpv|].
    constructor; [exact Hval | constructor].
Qed.

(** X12.  Drawdown of a simulated run.  For a positive initial capital
    and positive closes, every recorded portfolio value is positive, and
    the [max_drawdown] that [calculate_metrics] computes from the run is a
    finite percentage in the interval from [-100] (excluded) to [0]. *)
Theorem simulated_drawdown_bounds
    (df : list SigRow) (initial_capital : Q) (res : results) :
  simulate_trades df initial_capital = Ok res ->
  0 < initial_capital ->
  Forall positive_close (dropna df) ->
  Forall (fun sn => 0 < Value sn) (res_portfolio_df res) /\
  exists m, max_drawdown (calculate_metrics res) = Fin m /\ -100 < m /\ m <= 0.
Proof.
  intros H Hcap Hpos. apply simulate_trades_result in H.
  destruct H as [s [last [Hrun [Hlast ->]]]].
  assert (Hvals : Forall (fun sn => 0 < Value sn) (portfolio_values s)).
  { apply (run_positive_values (dropna df) (init_sim initial_capital) s);
      [apply init_solvent; exact Hcap | exact Hpos | constructor | exact Hrun]. }
  split; [exact Hvals|].
  assert (Hne : portfolio_values s <> []).
  { destruct (run_extends _ _ _ Hrun) as [tail [Ht Hl]].
    destruct (iloc_last_in _ _ Hlast) as [front Hf].
    rewrite Hf, length_app in Hl. simpl in Hl, Ht.
    intros E. rewrite E in Ht. subst tail. simpl in Hl. lia. }
  unfold calculate_metrics. cbn [max_drawdown res_portfolio_df].
  destruct (portfolio_values s) as [|sn pv] eqn:Epv; [contradiction|].
  apply (drawdown_min_bounds (map Value (sn :: pv))).
  - discriminate.
  - apply Forall_forall. intros v Hv. apply in_map_iff in Hv.
    destruct Hv as [x [<- Hx]]. rewrite Forall_forall in Hvals. apply Hvals. exact Hx.
Qed.

Lemma simulated_drawdown_bounds_witness :
  exists res,
    simulate_trades (signals_of_prices rising_prices 1 2) 1000 = Ok res /\
    0 < 1000 /\
    Forall positive_close (dropna (signals_of_prices rising_prices 1 2)) /\
    exists m, max_drawdown (calculate_metrics res) = Fin m /\ -100 < m /\ m <= 0.
Proof.
  assert (H2 : 0 < 1000) by reflexivity.
  assert (H3 : Forall positive_close (dropna (signals_of_prices rising_prices 1 2)))
    by (repeat constructor).
  eexists. split; [reflexivity|]. split; [exact H2|]. split; [exact H3|].
  exact (proj2 (simulated_drawdown_bounds (signals_of_prices rising_prices 1 2) 1000 _
                  eq_refl H2 H3)).
Defined.

(** ** Total return *)

Lemma percent_change_facts (f c : Q) :
  0 < c ->
  let t := (f - c) / c * 100 in
  (0 <= t <-> c <= f) /\ (t == 0 <-> f == c) /\ (0 <= f -> -100 <= t).
Proof.
  intros Hc t.
  assert (Hx : exists x, t == x * 100 /\ x * c == f - c).
  { exists ((f - c) / c). split; [reflexivity|].
    field. intro E. rewrite E in Hc. inversion Hc. }
  destruct Hx as [x [Ht Hx]].
  assert (Hsign : (0 <= x <-> c <= f) /\ (x == 0 <-> f == c) /\ (0 <= f -> -1 <= x)).
  { split; [|split].
    - split; intros H; nra.
    - split; intros H; nra.
    - intros H. nra. }
  destruct Hsign as [S1 [S2 S3]].
  split; [|split].
  - rewrite Ht. split; intros H.
    + apply S1. lra.
    + apply S1 in H. lra.
  - rewrite Ht. split; intros H.
    + apply S2. lra.
    + apply S2 in H. lra.
  - intros H. rewrite Ht. apply S3 in H. lra.
Qed.

(** X13.  Total return.  With a positive initial capital, [total_return]
    is the finite percentage [(final - initial) / initial * 100]; it is
    non-negative exactly when the final value is at least the initial
    capital, zero exactly when they are equal, and at least [-100] when
    the final value is non-negative.  With an initial capital of zero the
    division does not raise: the result is [nan], [inf] or [-inf]
    according to the sign of the final value. *)
Theorem total_return_sign (res : results) :
  let m := calculate_metrics res in
  let f := res_final_value res in
  let c := res_initial_capital res in
  (0 < c ->
     total_return m = Fin ((f - c) / c * 100) /\
     (0 <= (f - c) / c * 100 <-> c <= f) /\
     ((f - c) / c * 100 == 0 <-> f == c) /\
     (0 <= f -> -100 <= (f - c) / c * 100)) /\
  (c == 0 ->
     (f == 0 -> total_return m = NaN) /\
     (0 < f -> total_return m = PInf) /\
     (f < 0 -> total_return m = NInf)).
Proof.
  intros m f c. split.
  - intros Hc. split.
    + unfold m, calculate_metrics. cbn [total_return]. fold f c.
      rewrite true_div_nonzero by (intro E; rewrite E in Hc; inversion Hc).
      reflexivity.
    + apply (percent_change_facts f c Hc).
  - intros Hc. unfold m, calculate_metrics. cbn [total_return]. fold f c.
    unfold true_div.
    assert (E0 : Qeq_bool c 0 = true) by (apply Qeq_bool_iff; exact Hc).
    rewrite E0.
    split; [|split]; intros Hf.
    + assert (E1 : Qeq_bool (f - c) 0 = true) by (apply Qeq_bool_iff; lra).
      rewrite E1. reflexivity.
    + assert (E1 : Qeq_bool (f - c) 0 = false).
      { destruct (Qeq_bool (f - c) 0) eqn:E; [|reflexivity].
        apply Qeq_bool_iff in E. lra. }
      assert (E2 : Qle_bool 0 (f - c) = true) by (apply Qle_bool_iff; lra).
      rewrite E1, E2. reflexivity.
    + assert (E1 : Qeq_bool (f - c) 0 = false).
      { destruct (Qeq_bool (f - c) 0) eqn:E; [|reflexivity].
        apply Qeq_bool_iff in E. lra. }
      assert (E2 : Qle_bool 0 (f - c) = false).
      { destruct (Qle_bool 0 (f - c)) eqn:E; [|reflexivity].
        apply Qle_bool_iff in E. lra. }
      rewrite E1, E2. reflexivity.
Qed.

Lemma total_return_sign_witness :
  0 < res_initial_capital sample_results /\
  total_return (calculate_metrics sample_results) =
    Fin ((535 - 1000) / 1000 * 100).
Proof.
  assert (H : 0 < res_initial_capital sample_results) by reflexivity.
  split; [exact H|].
  exact (proj1 (proj1 (total_return_sign sample_results) H)).
Defined.

(** ** The buy-and-hold benchmark *)

Lemma bar_iloc_last_nonempty (df : list Bar) :
  df <> [] -> exists b front, bar_iloc_last df = Ok b /\ df = front ++ [b].
Proof.
  intros H. unfold bar_iloc_last. destruct (rev df) as [|b l] eqn:E.
  - apply (f_equal (@rev Bar)) in E. rewrite rev_involutive in E.
    simpl in E. contradiction.
  - exists b, (rev l). split; [reflexivity|].
    rewrite <- (rev_involutive df), E. reflexivity.
Qed.

(** The result of [calculate_buy_and_hold] on a frame that starts at a
    non-zero close. *)
Lemma calculate_buy_and_hold_result (first : Bar) (rest : list Bar) (c0 : Q) :
  ~ bar_Close first == 0 ->
  exists last front,
    first :: rest = front ++ [last] /\
    calculate_buy_and_hold (first :: rest) c0 =
      let n := Qfloor (c0 / bar_Close first) in
      let remaining := c0 - inject_Z n * bar_Close first in
      let final := inject_Z n * bar_Close last + remaining in
      Ok (mkBuyHold (bar_Close first) (bar_Close last) n c0 final
            (times100 (true_div (final - c0) c0))
            (drawdown_min
               (map (fun b => inject_Z n * bar_Close b + remaining)
                    (first :: rest)))).
Proof.
  intros Hnz.
  destruct (bar_iloc_last_nonempty (first :: rest)) as [last [front [Hl Hf]]];
    [discriminate|].
  exists last, front. split; [exact Hf|].
  unfold calculate_buy_and_hold. rewrite Hl. cbn [bar_iloc_first].
  rewrite floor_div_nonzero by exact Hnz. reflexivity.
Qed.

Lemma buy_and_hold_outcome_aux (df : list Bar) (c0 : Q) :
  (df = [] -> calculate_buy_and_hold df c0 = IndexError) /\
  (forall first rest, df = first :: rest -> bar_Close first == 0 ->
     calculate_buy_and_hold df c0 = NonFinite).
Proof.
  split.
  - intros ->. reflexivity.
  - intros first rest -> Hz.
    destruct (bar_iloc_last_nonempty (first :: rest)) as [last [front [Hl _]]];
      [discriminate|].
    unfold calculate_buy_and_hold. rewrite Hl. cbn [bar_iloc_first].
    unfold floor_div. apply Qeq_bool_iff in Hz. rewrite Hz. reflexivity.
Qed.

(** X14.  Outcome of the benchmark.  [calculate_buy_and_hold] raises
    [IndexError] on an empty frame; on a frame whose first close is not
    zero it returns, with the first and last close of the frame as start
    and end price and [floor (initial_capital / start_price)] shares. *)
Theorem buy_and_hold_outcome (df : list Bar) (initial_capital : Q) :
  (df = [] -> calculate_buy_and_hold df initial_capital = IndexError) /\
  (forall first rest, df = first :: rest -> ~ bar_Close first == 0 ->
     exists bh last front,
       calculate_buy_and_hold df initial_capital = Ok bh /\
       df = front ++ [last] /\
       bh_start_price bh = bar_Close first /\
       bh_end_price bh = bar_Close last /\
       bh_shares bh = Qfloor (initial_capital / bar_Close first) /\
       bh_initial_capital bh = initial_capital).
Proof.
  split.
  - intros ->. reflexivity.
  - intros first rest -> Hnz.
    destruct (calculate_buy_and_hold_result first rest initial_capital Hnz)
      as [last [front [Hf Hres]]].
    eexists. exists last, front. split; [exact Hres|].
    cbv zeta. cbn [bh_start_price bh_end_price bh_shares bh_initial_capital].
    repeat split. exact Hf.
Qed.

Lemma buy_and_hold_outcome_witness :
  ~ bar_Close (mkBar 0%nat 3) == 0 /\
  exists bh last front,
    calculate_buy_and_hold rising_prices 1000 = Ok bh /\
    rising_prices = front ++ [last] /\
    bh_start_price bh = 3 /\
    bh_end_price bh = bar_Close last /\
    bh_shares bh = Qfloor (1000 / 3) /\
    bh_initial_capital bh = 1000.
Proof.
  assert (H : ~ bar_Close (mkBar 0%nat 3) == 0) by discriminate.
  split; [exact H|].
  exact (proj2 (buy_and_hold_outcome rising_prices 1000)
               (mkBar 0%nat 3) [mkBar 1%nat 2; mkBar 2%nat 3] eq_refl H).
Defined.

Lemma calculate_buy_and_hold_inv (df : list Bar) (c0 : Q) (bh : buy_hold) :
  calculate_buy_and_hold df c0 = Ok bh ->
  exists first rest last front,
    df = first :: rest /\ df = front ++ [last] /\ ~ bar_Close first == 0 /\
    bh =
      let n := Qfloor (c0 / bar_Close first) in
      let remaining := c0 - inject_Z n * bar_Close first in
      let final := inject_Z n * bar_Close last + remaining in
      mkBuyHold (bar_Close first) (bar_Close last) n c0 final
        (times100 (true_div (final - c0) c0))
        (drawdown_min
           (map (fun b => inject_Z n * bar_Close b + remaining) df)).
Proof.
  intros H. destruct df as [|first rest]; [discriminate|].
  destruct (Qeq_bool (bar_Close first) 0) eqn:E.
  - apply Qeq_bool_iff in E.
    rewrite (proj2 (buy_and_hold_outcome_aux (first :: rest) c0)
               first rest eq_refl E) in H. discriminate.
  - assert (Hnz : ~ bar_Close first == 0).
    { intros Hz. apply Qeq_bool_iff in Hz. congruence. }
    destruct (calculate_buy_and_hold_result first rest c0 Hnz)
      as [last [front [Hf Hres]]].
    rewrite Hres in H. injection H as <-.
    exists first, rest, last, front. auto.
Qed.



(** X16.  Drawdown of the benchmark.  For positive closes and a positive
    initial capital, the [max_drawdown] of [calculate_buy_and_hold] is a
    finite percentage in the interval from [-100] (excluded) to [0]. *)
Theorem buy_and_hold_drawdown_bounds
    (df : list Bar) (initial_capital : Q) (bh : buy_hold) :
  calculate_buy_and_hold df initial_capital = Ok bh ->
  Forall (fun b => 0 < bar_Close b) df ->
  0 < initial_capital ->
  exists m, bh_max_drawdown bh = Fin m /\ -100 < m /\ m <= 0.
Proof.
  intros H Hpos Hcap. apply calculate_buy_and_hold_inv in H.
  destruct H as [first [rest [last [front [Hd [Hf [Hnz ->]]]]]]].
  cbv zeta. cbn [bh_max_drawdown].
  set (p := bar_Close first). set (n := Qfloor (initial_capital / p)).
  assert (Hp : 0 < p).
  { rewrite Hd in Hpos. inversion Hpos; assumption. }
  assert (Hn : (0 <= n)%Z) by (apply floor_nonneg; [lra | exact Hp]).
  assert (Hcost : inject_Z n * p <= initial_capital) by (apply floor_cost_le; exact Hp).
  apply drawdown_min_bounds.
  - rewrite Hd. discriminate.
  - apply Forall_forall. intros v Hv. apply in_map_iff in Hv.
    destruct Hv as [b [<- Hb]].
    rewrite Forall_forall in Hpos. specialize (Hpos b Hb).
    destruct (Z.eq_dec n 0) as [E|E].
    + rewrite E. change (inject_Z 0) with 0. lra.
    + assert (H1 : 0 < inject_Z n).
      { change 0 with (inject_Z 0). rewrite <- Zlt_Qlt. lia. }
      assert (0 < inject_Z n * bar_Close b)
        by (apply Qmult_lt_0_compat; assumption).
      lra.
Qed.

Lemma buy_and_hold_drawdown_bounds_witness :
  exists bh,
    calculate_buy_and_hold rising_prices 1000 = Ok bh /\
    Forall (fun b => 0 < bar_Close b) rising_prices /\
    0 < 1000 /\
    exists m, bh_max_drawdown bh = Fin m /\ -100 < m /\ m <= 0.
Proof.
  assert (H2 : Forall (fun b => 0 < bar_Close b) rising_prices)
    by (repeat constructor).
  assert (H3 : 0 < 1000) by reflexivity.
  eexists. split; [reflexivity|]. split; [exact H2|]. split; [exact H3|].
  exact (buy_and_hold_drawdown_bounds rising_prices 1000 _ eq_refl H2 H3).
Defined.

(** ** run_backtest *)

Lemma simulate_on_prices (prices : list Bar) (sw lw : nat) (c0 : Q) :
  Forall (fun b => 0 < bar_Close b) prices -> 0 <= c0 ->
  (1 <= sw)%nat -> (1 <= lw)%nat ->
  ((warmup sw lw < length prices)%nat ->
     exists res, simulate_trades (signals_of_prices prices sw lw) c0 = Ok res) /\
  ((length prices <= warmup sw lw)%nat ->
     simulate_trades (signals_of_prices prices sw lw) c0 = IndexError).
Proof.
  intros Hprices Hcap Hs Hl.
  destruct (dropna_on_prices prices sw lw) as [Hd _].
  destruct (Hd Hs Hl) as [_ Hlen]. split; intros Hn.
  - assert (Hne : dropna (signals_of_prices prices sw lw) <> []).
    { intros E. rewrite E in Hlen. simpl in Hlen. lia. }
    destruct (simulate_trades_positive _ _ Hcap
                (filtered_positive prices sw lw Hprices) Hne)
      as [s [last [_ [_ [_ Hsim]]]]].
    eexists. exact Hsim.
  - unfold simulate_trades.
    assert (E : dropna (signals_of_prices prices sw lw) = [])
      by (apply length_zero_iff_nil; lia).
    rewrite E. reflexivity.
Qed.

Lemma buy_and_hold_on_prices (first : Bar) (rest : list Bar) (c0 : Q) :
  0 < bar_Close first ->
  exists bh, calculate_buy_and_hold (first :: rest) c0 = Ok bh /\
             bh_initial_capital bh = c0.
Proof.
  intros Hp.
  destruct (calculate_buy_and_hold_result first rest c0) as [last [front [_ H]]].
  - intro E. rewrite E in Hp. inversion Hp.
  - eexists. split; [exact H | reflexivity].
Qed.

(** X17.  Outcomes of [run_backtest].  An empty fetched history ends in
    the [ValueError] of [fetch_data].  For positive closes, a non-negative
    capital and positive windows, a non-empty history with no more rows
    than the warm-up passes [fetch_data] and the benchmark but ends in the
    [IndexError] of [simulate_trades]; a longer history returns the
    metrics of the simulated run, the run and the benchmark, all for the
    same initial capital. *)
Theorem run_backtest_outcomes
    (history : list Bar) (short_window long_window : nat) (initial_capital : Q) :
  (history = [] ->
     run_backtest history short_window long_window initial_capital = NoData) /\
  (Forall (fun b => 0 < bar_Close b) history -> 0 <= initial_capital ->
   (1 <= short_window)%nat -> (1 <= long_window)%nat ->
     (history <> [] ->
      (length history <= warmup short_window long_window)%nat ->
        run_backtest history short_window long_window initial_capital
          = Ran IndexError) /\
     ((warmup short_window long_window < length history)%nat ->
        exists res bh,
          run_backtest history short_window long_window initial_capital
            = Ran (Ok (calculate_metrics res, res, bh)) /\
          simulate_trades (signals_of_prices history short_window long_window)
                          initial_capital = Ok res /\
          calculate_buy_and_hold history initial_capital = Ok bh /\
          initial_capital = res_initial_capital res /\
          bh_initial_capital bh = initial_capital)).
Proof.
  split; [intros ->; reflexivity|].
  intros Hpos Hcap Hs Hl.
  destruct (simulate_on_prices history short_window long_window initial_capital
              Hpos Hcap Hs Hl) as [Hlong Hshort].
  split.
  - intros Hne Hn. destruct history as [|first rest]; [contradiction|].
    destruct (buy_and_hold_on_prices first rest initial_capital) as [bh [Hbh _]].
    { inversion Hpos; assumption. }
    unfold run_backtest. cbn [fetch_data]. rewrite Hbh.
    fold (signals_of_prices (first :: rest) short_window long_window).
    rewrite (Hshort Hn). reflexivity.
  - intros Hn. destruct history as [|first rest]; [simpl in Hn; lia|].
    destruct (buy_and_hold_on_prices first rest initial_capital) as [bh [Hbh Hcap']].
    { inversion Hpos; assumption. }
    destruct (Hlong Hn) as [res Hres].
    exists res, bh.
    split; [|split; [exact Hres | split; [exact Hbh | split; [|exact Hcap']]]].
    + unfold run_backtest. cbn [fetch_data]. rewrite Hbh.
      fold (signals_of_prices (first :: rest) short_window long_window).
      rewrite Hres. reflexivity.
    + apply simulate_trades_result in Hres.
      destruct Hres as [s [last [_ [_ ->]]]]. reflexivity.
Qed.

Lemma run_backtest_outcomes_witness :
  Forall (fun b => 0 < bar_Close b) rising_prices /\
  0 <= 1000 /\ (1 <= 20)%nat /\ (1 <= 50)%nat /\
  rising_prices <> [] /\
  (length rising_prices <= warmup 20 50)%nat /\
  run_backtest rising_prices 20 50 1000 = Ran IndexError.
Proof.
  assert (H1 : Forall (fun b => 0 < bar_Close b) rising_prices)
    by (repeat constructor).
  assert (H2 : 0 <= 1000) by discriminate.
  assert (H3 : (1 <= 20)%nat) by lia.
  assert (H4 : (1 <= 50)%nat) by lia.
  assert (H5 : rising_prices <> []) by discriminate.
  assert (H6 : (length rising_prices <= warmup 20 50)%nat) by (vm_compute; lia).
  repeat (split; [assumption|]).
  exact (proj1 (proj2 (run_backtest_outcomes rising_prices 20 50 1000) H1 H2 H3 H4)
               H5 H6).
Defined.

(** ** A constant price series *)

Lemma fold_Qmax_upper (qs : list Q) (q hi : Q) :
  q <= hi -> Forall (fun x => x <= hi) qs -> fold_left Qmax qs q <= hi.
Proof.
  revert q. induction qs as [|x qs IH]; intros q Hq H; [exact Hq|].
  inversion H as [|? ? Hx Hqs]; subst. simpl. apply IH; [|exact Hqs].
  apply Q.max_lub; assumption.
Qed.

Lemma spec_peak_upper (vs : list Q) (t : nat) (hi : Q) :
  vs <> [] -> Forall (fun x => x <= hi) vs -> spec_peak vs t <= hi.
Proof.
  intros Hne H. unfold spec_peak. destruct vs as [|v vs]; [contradiction|].
  cbn [firstn]. inversion H as [|? ? Hv Hvs]; subst.
  apply fold_Qmax_upper; [exact Hv|]. apply Forall_prefix. exact Hvs.
Qed.

(** The drawdown of a column that stays at one positive value is zero. *)
Lemma drawdown_min_constant (vs : list Q) (c : Q) :
  vs <> [] -> 0 < c -> Forall (fun v => v == c) vs ->
  exists m, drawdown_min vs = Fin m /\ m == 0.
Proof.
  intros Hne Hc Hall.
  assert (Hpos : Forall (fun v => 0 < v) vs).
  { apply Forall_forall. intros v Hv. rewrite Forall_forall in Hall.
    rewrite (Hall v Hv). exact Hc. }
  assert (Hle : Forall (fun v => v <= c) vs).
  { apply Forall_forall. intros v Hv. rewrite Forall_forall in Hall.
    rewrite (Hall v Hv). apply Qle_refl. }
  rewrite drawdown_min_spec.
  destruct (series_min_of_drawdowns vs Hne) as [m [Hm [_ [t [Ht Hatt]]]]].
  { intros t Ht E. pose proof (positive_peaks vs t Hpos Ht) as Hp.
    rewrite E in Hp. inversion Hp. }
  exists m. split; [exact Hm|]. rewrite Hatt. unfold spec_drawdown.
  assert (Hv : nth t vs 0 == c).
  { rewrite Forall_forall in Hall. apply Hall. apply nth_In. exact Ht. }
  assert (Hp : spec_peak vs t == c).
  { apply Qle_antisym; [apply spec_peak_upper; assumption|].
    rewrite <- Hv. apply spec_peak_in. exact Ht. }
  rewrite Hv, Hp. field. intro E. rewrite E in Hc. inversion Hc.
Qed.

Lemma run_flat_snapshots (rows : list SigRow) (s : sim) :
  Forall no_crossover rows ->
  run s rows =
    Ok (mkSim (capital s) (shares s) (trades s)
          (portfolio_values s ++
           map (fun r => mkSnapshot (Date_ r)
                           (capital s + inject_Z (shares s) * Close r)) rows)
          (in_position s) (entry_price s) (entry_date s)).
Proof.
  revert s. induction rows as [|r rows IH]; intros s H.
  - simpl. rewrite app_nil_r. destruct s; reflexivity.
  - inversion H as [|? ? Hr Hrows]; subst.
    apply no_crossover_position_is in Hr. destruct Hr as [E1 E2].
    simpl. unfold step. rewrite E1, E2. cbn [andb].
    rewrite (IH _ Hrows). proj_simpl. unfold recorded.
    rewrite <- app_assoc. reflexivity.
Qed.

Lemma constant_average (w i : nat) (xs : list Q) (c q : Q) :
  Forall (fun x => x == c) xs -> (i < length xs)%nat ->
  rolling_mean_at w xs i = Some q -> q == c.
Proof.
  intros Hxs Hi Hq.
  assert (Hb : Forall (fun x => c <= x <= c) xs).
  { apply Forall_forall. intros x Hx. rewrite Forall_forall in Hxs.
    rewrite (Hxs x Hx). split; apply Qle_refl. }
  destruct (rolling_mean_at_bounds w i xs c c q Hb Hi Hq).
  apply Qle_antisym; assumption.
Qed.

Lemma signal_of_tie (s l : Q) : s == l -> signal_of (Some s) (Some l) = (-1)%Z.
Proof.
  intros E. rewrite signal_of_defined.
  assert (H : Qle_bool s l = true) by (apply Qle_bool_iff; rewrite E; apply Qle_refl).
  rewrite H. reflexivity.
Qed.

Lemma constant_signal (prices : list Bar) (sw lw i : nat) (c : Q) :
  Forall (fun b => bar_Close b == c) prices -> (i < length prices)%nat ->
  (-1 <= signal_at prices sw lw i <= 0)%Z.
Proof.
  intros Hc Hi. unfold signal_at.
  assert (Hxs : Forall (fun x => x == c) (closes_of prices)).
  { unfold closes_of. apply Forall_forall. intros x Hx.
    apply in_map_iff in Hx. destruct Hx as [b [<- Hb]].
    rewrite Forall_forall in Hc. apply Hc. exact Hb. }
  assert (Hlen : (i < length (closes_of prices))%nat)
    by (unfold closes_of; rewrite length_map; exact Hi).
  destruct (rolling_mean_at sw (closes_of prices) i) as [s|] eqn:Es;
    [|rewrite signal_of_undefined by auto; lia].
  destruct (rolling_mean_at lw (closes_of prices) i) as [l|] eqn:El;
    [|rewrite signal_of_undefined by auto; lia].
  rewrite signal_of_tie; [lia|].
  rewrite (constant_average _ _ _ _ _ Hxs Hlen Es).
  rewrite (constant_average _ _ _ _ _ Hxs Hlen El). reflexivity.
Qed.

Lemma constant_no_crossover (prices : list Bar) (sw lw : nat) (c : Q) (r : SigRow) :
  Forall (fun b => bar_Close b == c) prices ->
  In r (signals_of_prices prices sw lw) -> no_crossover r.
Proof.
  intros Hc Hr. rewrite signals_of_prices_indexed in Hr.
  apply in_map_iff in Hr. destruct Hr as [i [<- Hi]]. apply in_seq in Hi.
  unfold no_crossover, sig_row_at. cbn [Position].
  destruct i as [|j]; [split; discriminate|].
  unfold position_at.
  pose proof (constant_signal prices sw lw (S j) c Hc) as H1.
  pose proof (constant_signal prices sw lw j c Hc) as H2.
  split; intros E; injection E as E; lia.
Qed.

(** X18.  A constant price series never trades.  When all closes are
    equal, both averages are equal wherever they are defined, the tie
    gives the signal [-1], and no row carries a crossover, whatever the
    windows.  Whenever a row survives the filter the run returns with an
    empty trade log, no open position, a final value equal to the initial
    capital and zero counted trades; for a positive capital the total
    return and the maximum drawdown are both zero. *)
Theorem constant_series_no_trade
    (prices : list Bar) (short_window long_window : nat) (c initial_capital : Q) :
  Forall (fun b => bar_Close b == c) prices ->
  (forall r, In r (signals_of_prices prices short_window long_window) ->
     no_crossover r) /\
  (dropna (signals_of_prices prices short_window long_window) <> [] ->
   exists res,
     simulate_trades (signals_of_prices prices short_window long_window)
                     initial_capital = Ok res /\
     res_trades res = [] /\
     res_in_position res = false /\
     res_final_value res == initial_capital /\
     num_trades (calculate_metrics res) = 0%nat /\
     (0 < initial_capital ->
      exists t m,
        total_return (calculate_metrics res) = Fin t /\ t == 0 /\
        max_drawdown (calculate_metrics res) = Fin m /\ m == 0)).
Proof.
  intros Hc. split; [intros r; apply constant_no_crossover with (c := c); exact Hc|].
  intros Hne.
  set (rows := dropna (signals_of_prices prices short_window long_window)) in *.
  assert (Hrows : Forall no_crossover rows).
  { apply Forall_forall. intros r Hr. unfold rows, dropna in Hr.
    apply filter_In in Hr.
    apply (constant_no_crossover prices short_window long_window c); tauto. }
  pose proof (run_flat_snapshots rows (init_sim initial_capital) Hrows) as Hrun.
  destruct (iloc_last_nonempty rows Hne) as [last Hlast].
  unfold simulate_trades. fold rows. rewrite Hrun, Hlast. cbn [init_sim].
  proj_simpl. eexists. split; [reflexivity|].
  cbn [res_trades res_in_position res_final_value].
  split; [reflexivity|]. split; [reflexivity|].
  assert (Hf : initial_capital + inject_Z 0 * Close last == initial_capital).
  { change (inject_Z 0) with 0. ring. }
  split; [exact Hf|]. split; [reflexivity|].
  intros Hcap.
  unfold calculate_metrics.
  cbn [total_return max_drawdown res_final_value res_initial_capital res_portfolio_df].
  rewrite true_div_nonzero by (intro E; rewrite E in Hcap; inversion Hcap).
  cbn [times100 app].
  eexists. 
  destruct rows as [|r0 rows'] eqn:Erows; [contradiction|].
  cbn [map].
  destruct (drawdown_min_constant
              (map Value
                 (map (fun r => mkSnapshot (Date_ r)
                                  (initial_capital + inject_Z 0 * Close r))
                      (r0 :: rows')))
              initial_capital) as [m [Hm Hm0]].
  - discriminate.
  - exact Hcap.
  - apply Forall_forall. intros v Hv. rewrite map_map in Hv.
    apply in_map_iff in Hv. destruct Hv as [r [<- _]]. simpl.
    change (inject_Z 0) with 0. ring.
  - exists m. split; [reflexivity|]. split.
    + rewrite Hf. field. intro E. rewrite E in Hcap. inversion Hcap.
    + split; [exact Hm | exact Hm0].
Qed.

Lemma constant_series_no_trade_witness :
  Forall (fun b => bar_Close b == 5) flat_prices /\
  dropna (signals_of_prices flat_prices 1 2) <> [] /\
  exists res,
    simulate_trades (signals_of_prices flat_prices 1 2) 1000 = Ok res /\
    res_trades res = [] /\
    res_final_value res == 1000.
Proof.
  assert (H1 : Forall (fun b => bar_Close b == 5) flat_prices)
    by (repeat constructor).
  assert (H2 : dropna (signals_of_prices flat_prices 1 2) <> []) by discriminate.
  split; [exact H1|]. split; [exact H2|].
  destruct (proj2 (constant_series_no_trade flat_prices 1 2 5 1000 H1) H2)
    as [res [Hs [Ht [_ [Hf _]]]]].
  exists res. auto.
Defined.

(** ** Where trades are executed *)

Lemma step_trades_executed (all : list SigRow) (s s' : sim) (row : SigRow) :
  In row all ->
  (forall t, In t (trades s) -> exists r, In r all /\ executed_on t r) ->
  step s row = Ok s' ->
  forall t, In t (trades s') -> exists r, In r all /\ executed_on t r.
Proof.
  intros Hrow Hold. unfold step.
  destruct (position_is row 2 && negb (in_position s)) eqn:Ebuy.
  - apply andb_true_iff in Ebuy. destruct Ebuy as [Ep _].
    apply position_is_true in Ep.
    destruct (floor_div (capital s) (Close row)) as [n|]; [|discriminate].
    destruct (n >? 0)%Z; intros H; injection H as <-; proj_simpl; [|exact Hold].
    intros t Ht. apply in_app_or in Ht. destruct Ht as [Ht|[<-|[]]]; [auto|].
    exists row. simpl. auto.
  - destruct (position_is row (-2) && in_position s) eqn:Esell.
    + apply andb_true_iff in Esell. destruct Esell as [Ep _].
      apply position_is_true in Ep.
      intros H; injection H as <-; proj_simpl.
      intros t Ht. apply in_app_or in Ht. destruct Ht as [Ht|[<-|[]]]; [auto|].
      exists row. simpl. auto.
    + intros H; injection H as <-; proj_simpl. exact Hold.
Qed.

Lemma run_trades_executed (all rows : list SigRow) (s s' : sim) :
  (forall r, In r rows -> In r all) ->
  (forall t, In t (trades s) -> exists r, In r all /\ executed_on t r) ->
  run s rows = Ok s' ->
  forall t, In t (trades s') -> exists r, In r all /\ executed_on t r.
Proof.
  revert s. induction rows as [|row rows IH]; intros s Hsub Hold Hrun.
  - injection Hrun as <-. exact Hold.
  - simpl in Hrun. destruct (step s row) as [s1| |] eqn:E; try discriminate.
    apply (IH s1); [intros r Hr; apply Hsub; right; exact Hr| |exact Hrun].
    apply (step_trades_executed all s s1 row); auto.
    apply Hsub. left. reflexivity.
Qed.

(** X19.  Trades happen only on crossover rows, at that row's close.  In
    every run that returns, each BUY of the log carries the date and the
    close of a filtered row with [Position == 2], and each SELL those of
    a filtered row with [Position == -2]. *)
Theorem trades_at_crossovers
    (df : list SigRow) (initial_capital : Q) (res : results) (t : trade) :
  simulate_trades df initial_capital = Ok res ->
  In t (res_trades res) ->
  exists r, In r (dropna df) /\ executed_on t r.
Proof.
  intros H Ht. apply simulate_trades_result in H.
  destruct H as [s [last [Hrun [_ ->]]]]. cbn [res_trades] in Ht.
  apply (run_trades_executed (dropna df) (dropna df) (init_sim initial_capital) s);
    auto.
  intros t0 [].
Qed.

Lemma trades_at_crossovers_witness :
  exists res,
    simulate_trades (signals_of_prices rising_prices 1 2) 1000 = Ok res /\
    In (BUY 2%nat 3 333) (res_trades res) /\
    exists r, In r (dropna (signals_of_prices rising_prices 1 2)) /\
              executed_on (BUY 2%nat 3 333) r.
Proof.
  eexists. split; [reflexivity|].
  assert (H : In (BUY 2%nat 3 333) [BUY 2%nat 3 333]) by (left; reflexivity).
  split; [exact H|].
  exact (trades_at_crossovers (signals_of_prices rising_prices 1 2) 1000 _ _
           eq_refl H).
Defined.

(** ** Averages that never cross *)

Lemma diff_from_small_up (prev : Z) (xs : list Z) :
  (0 <= prev <= 1)%Z ->
  Forall (fun x => (0 <= x <= 1)%Z) xs ->
  Forall small_step (diff_from prev xs).
Proof.
  revert prev. induction xs as [|x xs IH]; intros prev Hp H; [constructor|].
  inversion H as [|? ? Hx Hxs]; subst. simpl. constructor.
  - simpl. lia.
  - apply IH; assumption.
Qed.

Lemma diff_small_up (xs : list Z) :
  Forall (fun x => (0 <= x <= 1)%Z) xs -> Forall small_step (diff xs).
Proof.
  intros H. destruct xs as [|x xs]; [constructor|].
  inversion H; subst. simpl. constructor; [exact I|].
  apply diff_from_small_up; assumption.
Qed.

Lemma signal_of_cases (a b : option Q) :
  (signal_of a b = 0%Z /\ (a = None \/ b = None)) \/
  (exists s l, a = Some s /\ b = Some l /\
     ((signal_of a b = (-1)%Z /\ s <= l) \/ (signal_of a b = 1%Z /\ l < s))).
Proof.
  destruct a as [s|]; [|left; split; [reflexivity | auto]].
  destruct b as [l|]; [|left; split; [reflexivity | auto]].
  right. exists s, l. split; [reflexivity|]. split; [reflexivity|].
  rewrite signal_of_defined. destruct (Qle_bool s l) eqn:E.
  - left. split; [reflexivity|]. apply Qle_bool_iff. exact E.
  - right. split; [reflexivity|]. apply Qnot_le_lt. intros H.
    apply Qle_bool_iff in H. congruence.
Qed.

Lemma one_sided_small_steps (df : list MARow) :
  short_never_above df \/ short_always_above df ->
  Forall small_step
    (diff (map (fun m => signal_of (ma_SMA_Short m) (ma_SMA_Long m)) df)).
Proof.
  intros [H|H].
  - apply diff_small. apply Forall_forall. intros x Hx.
    apply in_map_iff in Hx. destruct Hx as [m [<- Hin]].
    destruct (signal_of_cases (ma_SMA_Short m) (ma_SMA_Long m))
      as [[E _] | (s & l & Es & El & [[E _] | [_ Hlt]])].
    + rewrite E. lia.
    + rewrite E. lia.
    + pose proof (H m s l Hin Es El) as Hle. exfalso.
      apply (Qlt_irrefl l). eapply Qlt_le_trans; eassumption.
  - apply diff_small_up. apply Forall_forall. intros x Hx.
    apply in_map_iff in Hx. destruct Hx as [m [<- Hin]].
    destruct (signal_of_cases (ma_SMA_Short m) (ma_SMA_Long m))
      as [[E _] | (s & l & Es & El & [[_ Hle] | [E _]])].
    + rewrite E. lia.
    + pose proof (H m s l Hin Es El) as Hlt. exfalso.
      apply (Qlt_irrefl l). eapply Qlt_le_trans; eassumption.
    + rewrite E. lia.
Qed.

Lemma one_sided_no_crossover (df : list MARow) (r : SigRow) :
  short_never_above df \/ short_always_above df ->
  In r (generate_signals df) -> no_crossover r.
Proof.
  intros Hside H. apply generate_signals_position in H.
  pose proof (one_sided_small_steps df Hside) as Hs.
  rewrite Forall_forall in Hs. specialize (Hs _ H).
  unfold no_crossover. destruct (Position r) as [d|]; simpl in Hs.
  - split; intros E; inversion E; lia.
  - split; discriminate.
Qed.

(** X20.  No trade unless the averages are found on both sides of each
    other.  When, on every row where both averages are present, the short
    one is at or below the long one, or when on every such row it is
    above, no row of the signal frame carries a crossover: a signal that
    only leaves or returns to the warm-up value 0 moves [Position] by one,
    not by two.  Whenever a row survives the filter the run then returns
    with an empty trade log, no open position and a final value equal to
    the initial capital. *)
Theorem no_trade_without_crossing (df : list MARow) (initial_capital : Q) :
  short_never_above df \/ short_always_above df ->
  (forall r, In r (generate_signals df) -> no_crossover r) /\
  (dropna (generate_signals df) <> [] ->
   exists res,
     simulate_trades (generate_signals df) initial_capital = Ok res /\
     res_trades res = [] /\
     res_in_position res = false /\
     res_final_value res == initial_capital).
Proof.
  intros Hside.
  split; [intros r; apply one_sided_no_crossover; exact Hside|].
  intros Hne.
  assert (Hrows : Forall no_crossover (dropna (generate_signals df))).
  { apply Forall_forall. intros r Hr. unfold dropna in Hr.
    apply filter_In in Hr. apply (one_sided_no_crossover df r Hside). apply Hr. }
  destruct (run_without_crossover _ (init_sim initial_capital) Hrows)
    as [s [Hrun [Ht [Hc [Hs Hp]]]]].
  destruct (iloc_last_nonempty _ Hne) as [last Hlast].
  unfold simulate_trades. rewrite Hrun, Hlast.
  eexists. split; [reflexivity|]. cbn [res_trades res_in_position res_final_value].
  rewrite Ht, Hp, Hc, Hs. simpl trades. simpl in_position.
  repeat split. simpl. ring.
Qed.

Lemma no_trade_without_crossing_witness :
  short_always_above (calculate_moving_averages rally_prices 2 3) /\
  dropna (generate_signals (calculate_moving_averages rally_prices 2 3)) <> [] /\
  exists res,
    simulate_trades
      (generate_signals (calculate_moving_averages rally_prices 2 3)) 1000
      = Ok res /\
    res_trades res = [] /\
    res_in_position res = false /\
    res_final_value res == 1000.
Proof.
  assert (H1 : short_always_above (calculate_moving_averages rally_prices 2 3)).
  { intros m s l Hin Hs Hl. vm_compute in Hin.
    destruct Hin as [<- | [<- | [<- | [<- | [<- | []]]]]];
      try discriminate Hl;
      injection Hs as <-; injection Hl as <-; reflexivity. }
  assert (H2 : dropna (generate_signals
                         (calculate_moving_averages rally_prices 2 3)) <> [])
    by discriminate.
  split; [exact H1|]. split; [exact H2|].
  exact (proj2 (no_trade_without_crossing
                  (calculate_moving_averages rally_prices 2 3) 1000
                  (or_intror H1)) H2).
Defined.

(** ** Winning round trips *)

Lemma well_paired_sell (o : option (Q * Z)) (front rest : list trade)
    (d : Date) (p : Q) (n : Z) (profit : Q) (pct : num) :
  well_paired o (front ++ SELL d p n profit pct :: rest) ->
  exists p0, open_end o front = Some (p0, n) /\
             profit = (p - p0) * inject_Z n.
Proof.
  revert o. induction front as [|t front IH]; intros o H.
  - simpl in H. destruct o as [[p0 n0]|]; [|contradiction].
    destruct H as [-> [-> _]]. exists p0. split; reflexivity.
  - destruct t as [d1 p1 n1 | d1 p1 n1 pr1 pc1]; simpl in H |- *.
    + destruct H as [_ [_ H]]. apply IH. exact H.
    + destruct o as [[p0 n0]|]; [|contradiction].
      destruct H as [_ [_ [_ H]]]. apply IH. exact H.
Qed.

Lemma open_end_last_buy (front : list trade) (p0 : Q) (n : Z) :
  well_paired None front -> open_end None front = Some (p0, n) ->
  (0 < n)%Z /\ exists front' d0, front = front' ++ [BUY d0 p0 n].
Proof.
  intros Hwp Hopen.
  destruct front as [|t0 f0] using rev_ind; [discriminate|].
  rewrite open_end_app in Hopen.
  destruct t0 as [d1 p1 n1 | d1 p1 n1 pr1 pc1]; simpl in Hopen; [|discriminate].
  injection Hopen as -> ->.
  split; [|exists f0, d1; reflexivity].
  clear IHf0. revert Hwp. generalize (@None (Q * Z)).
  induction f0 as [|t f IH]; intros o H.
  - simpl in H. tauto.
  - destruct t as [d2 p2 n2 | d2 p2 n2 pr2 pc2]; simpl in H.
    + destruct H as [_ [_ H]]. apply (IH _ H).
    + destruct o as [[q0 m0]|]; [|contradiction].
      destruct H as [_ [_ [_ H]]]. apply (IH _ H).
Qed.

(** X21.  In every run that returns, a SELL of the log is immediately
    preceded by the BUY it closes, for the same positive share count; its
    profit is the difference of the two prices times the shares, so that
    [calculate_metrics] counts it as a winning trade exactly when it sells
    above the purchase price. *)
Theorem sell_wins_above_buy_price
    (df : list SigRow) (initial_capital : Q) (res : results)
    (front rest : list trade) (d : Date) (p : Q) (n : Z) (profit : Q) (pct : num) :
  simulate_trades df initial_capital = Ok res ->
  res_trades res = front ++ SELL d p n profit pct :: rest ->
  exists front' d0 p0,
    front = front' ++ [BUY d0 p0 n] /\
    (0 < n)%Z /\
    profit = (p - p0) * inject_Z n /\
    (is_winning (SELL d p n profit pct) = true <-> p0 < p).
Proof.
  intros H Hlog.
  destruct (trade_log_pairs_aux df initial_capital res H) as [Hwp _].
  rewrite Hlog in Hwp.
  destruct (well_paired_sell _ _ _ _ _ _ _ _ Hwp) as [p0 [Hopen Hprofit]].
  assert (Hfront : well_paired None front).
  { clear - Hwp. revert Hwp. generalize (@None (Q * Z)).
    induction front as [|t f IH]; intros o H; [exact I|].
    destruct t as [d2 p2 n2 | d2 p2 n2 pr2 pc2]; simpl in H |- *.
    - destruct H as [A [B H]]. split; [exact A|]. split; [exact B|].
      apply (IH _ H).
    - destruct o as [[q0 m0]|]; [|contradiction].
      destruct H as [A [B [C H]]].
      split; [exact A|]. split; [exact B|]. split; [exact C|]. apply (IH _ H). }
  destruct (open_end_last_buy front p0 n Hfront Hopen) as [Hn [front' [d0 Hf]]].
  exists front', d0, p0. split; [exact Hf|]. split; [exact Hn|].
  split; [exact Hprofit|].
  assert (HnQ : 0 < inject_Z n).
  { change 0 with (inject_Z 0). rewrite <- Zlt_Qlt. exact Hn. }
  simpl. rewrite Hprofit. split.
  - intros E. apply negb_true_iff in E.
    destruct (Qlt_le_dec p0 p) as [Hlt|Hle]; [exact Hlt|exfalso].
    assert (Hq : (p - p0) * inject_Z n <= 0) by nra.
    apply Qle_bool_iff in Hq. congruence.
  - intros Hlt. apply negb_true_iff.
    destruct (Qle_bool ((p - p0) * inject_Z n) 0) eqn:E; [|reflexivity].
    apply Qle_bool_iff in E. exfalso.
    assert (0 < (p - p0) * inject_Z n) by (apply Qmult_lt_0_compat; lra).
    lra.
Qed.

Lemma sell_wins_above_buy_price_witness :
  simulate_trades (signals_of_prices round_trip_prices 1 2) 1000 =
    Ok round_trip_results /\
  res_trades round_trip_results =
    [BUY 2%nat 3 333] ++ SELL 4%nat 4 333 333 (Fin (100 # 3)) :: [] /\
  exists front' d0 p0,
    [BUY 2%nat 3 333] = front' ++ [BUY d0 p0 333] /\
    (0 < 333)%Z /\
    333 = (4 - p0) * inject_Z 333 /\
    (is_winning (SELL 4%nat 4 333 333 (Fin (100 # 3))) = true <-> p0 < 4).
Proof.
  assert (H : simulate_trades (signals_of_prices round_trip_prices 1 2) 1000 =
              Ok round_trip_results) by (vm_compute; reflexivity).
  assert (Hlog : res_trades round_trip_results =
                 [BUY 2%nat 3 333] ++ SELL 4%nat 4 333 333 (Fin (100 # 3)) :: [])
    by reflexivity.
  split; [exact H|]. split; [exact Hlog|].
  exact (sell_wins_above_buy_price (signals_of_prices round_trip_prices 1 2) 1000
           round_trip_results [BUY 2%nat 3 333] [] 4%nat 4 333 333 (Fin (100 # 3))
           H Hlog).
Defined.
